(** * rag-youtube-assistant: retry, query, rewriting and evaluation logic

  A shallow embedding of the decision logic of [app/rag.py],
  [app/query_rewriter.py] and [app/main.py].

  The Python code talks to collaborators that are not part of these
  three files (the Ollama endpoint, the data processor, the database
  handler, the transcript extractor, pandas, json).  They are gathered
  in a record [World] of oracles; every call to a collaborator is
  recorded as an [event] in a trace, and advances a call counter
  [tick] so that an oracle may answer differently on every call.
  Python exceptions are explicit: a computation yields [Ret v] or
  [Raise e] together with the new state. *)

From Stdlib Require Import ZArith List String Ascii Bool Lia PeanoNat.
From Stdlib Require Import DecimalString.
Import ListNotations.
Open Scope string_scope.
Open Scope Z_scope.
Set Warnings "-register-all".

(** ** Python values and exceptions *)

Module Py.

(** The exception classes the three files raise, catch or can receive
    from a collaborator.  [JSONDecodeError] is a subclass of
    [ValueError] in Python; every class here derives from
    [Exception]. *)
Inductive exn_class : Type :=
| ValueError
| JSONDecodeError
| TypeError
| KeyError
| AttributeError
| FileNotFoundError
| ConnectionError
| OtherException (name : string).

Record exn : Type := mkExn { exn_cls : exn_class; exn_msg : string }.

(** [str(e)] *)
Definition str_exn (e : exn) : string := exn_msg e.

(** [isinstance(e, ValueError)] *)
Definition is_ValueError (e : exn) : bool :=
  match exn_cls e with
  | ValueError | JSONDecodeError => true
  | _ => false
  end.

(** [isinstance(e, FileNotFoundError)] *)
Definition is_FileNotFoundError (e : exn) : bool :=
  match exn_cls e with
  | FileNotFoundError => true
  | _ => false
  end.

Inductive outcome (A : Type) : Type :=
| Ret (v : A)
| Raise (e : exn).
Arguments Ret {A} v.
Arguments Raise {A} e.

(** Truth value of a [str], of a list and of an optional value. *)
Definition truthy_str (s : string) : bool :=
  match s with
  | EmptyString => false
  | String _ _ => true
  end.

Definition truthy_list {A : Type} (l : list A) : bool :=
  match l with
  | [] => false
  | _ :: _ => true
  end.

Definition truthy_opt {A : Type} (t : A -> bool) (o : option A) : bool :=
  match o with
  | None => false
  | Some a => t a
  end.

(** [s.startswith(p)] *)
Definition startswith (s p : string) : bool := String.prefix p s.

(** [sep.join(l)] *)
Fixpoint join (sep : string) (l : list string) : string :=
  match l with
  | [] => EmptyString
  | [x] => x
  | x :: rest => x ++ sep ++ join sep rest
  end.

(** [str(n)] for an [int]. *)
Definition str_int (n : Z) : string := NilZero.string_of_int (Z.to_int n).

(** [str(n)] for a length or a counter. *)
Definition str_nat (n : nat) : string := str_int (Z.of_nat n).

(** [sub in s] for two strings. *)
Definition str_contains (sub s : string) : bool :=
  match String.index 0 sub s with
  | Some _ => true
  | None => false
  end.

(** The characters of a string, as one-character strings
    (iteration over a [str]). *)
Fixpoint chars (s : string) : list string :=
  match s with
  | EmptyString => []
  | String c rest => String c EmptyString :: chars rest
  end.

(** A string of ASCII characters only. *)
Fixpoint is_ascii (s : string) : bool :=
  match s with
  | EmptyString => true
  | String c rest => (Nat.ltb (nat_of_ascii c) 128 && is_ascii rest)%bool
  end.

(** [s.lower()] for a string of ASCII characters: the letters A to Z
    are mapped to a to z, every other character is kept. *)
Definition lower_ascii_char (c : ascii) : ascii :=
  let n := nat_of_ascii c in
  if (Nat.leb 65 n && Nat.leb n 90)%bool then ascii_of_nat (n + 32) else c.

Fixpoint ascii_lower (s : string) : string :=
  match s with
  | EmptyString => EmptyString
  | String c rest => String (lower_ascii_char c) (ascii_lower rest)
  end.

Definition nl : string := String (ascii_of_nat 10) EmptyString.
Definition dq : string := String (ascii_of_nat 34) EmptyString.

(** *** Values produced by [json.loads]

    [JNull] is Python's [None].  A [float] is kept abstract: the
    program only observes its truth value. *)
Inductive json : Type :=
| JNull
| JBool (b : bool)
| JInt (z : Z)
| JFloat (nonzero : bool)
| JStr (s : string)
| JList (l : list json)
| JDict (items : list (string * json)).

Definition truthy (v : json) : bool :=
  match v with
  | JNull => false
  | JBool b => b
  | JInt z => negb (z =? 0)
  | JFloat nz => nz
  | JStr s => truthy_str s
  | JList l => truthy_list l
  | JDict items => truthy_list items
  end.

(** [d.get(k)] on the items of a dict. *)
Fixpoint dict_lookup (k : string) (items : list (string * json)) : option json :=
  match items with
  | [] => None
  | (k', v) :: rest => if String.eqb k k' then Some v else dict_lookup k rest
  end.

Definition is_str (k : string) (v : json) : bool :=
  match v with
  | JStr s => String.eqb s k
  | _ => false
  end.

(** [k in v] for a string [k]: key membership on a dict, element
    membership on a list, substring test on a string, [TypeError] on
    anything else.  The messages of the interpreter's own errors are
    shortened here and below. *)
Definition contains (k : string) (v : json) : outcome bool :=
  match v with
  | JDict items =>
      Ret (match dict_lookup k items with Some _ => true | None => false end)
  | JList l => Ret (existsb (is_str k) l)
  | JStr s => Ret (str_contains k s)
  | _ => Raise (mkExn TypeError "argument is not iterable")
  end.

(** [v[k]] for a string [k]. *)
Definition getitem (k : string) (v : json) : outcome json :=
  match v with
  | JDict items =>
      match dict_lookup k items with
      | Some x => Ret x
      | None => Raise (mkExn KeyError k)
      end
  | _ => Raise (mkExn TypeError "indices must be integers")
  end.

(** [v.get(k, default)]: defined on dicts only. *)
Definition get (k : string) (default : json) (v : json) : outcome json :=
  match v with
  | JDict items =>
      Ret (match dict_lookup k items with Some x => x | None => default end)
  | _ => Raise (mkExn AttributeError "object has no attribute 'get'")
  end.

(** [for q in v]: the elements of a list, the characters of a string,
    the keys of a dict; [TypeError] on anything else. *)
Definition iter (v : json) : outcome (list json) :=
  match v with
  | JList l => Ret l
  | JStr s => Ret (map JStr (chars s))
  | JDict items => Ret (map (fun kv => JStr (fst kv)) items)
  | _ => Raise (mkExn TypeError "object is not iterable")
  end.

End Py.
Export Py.

(** ** The world outside the three files *)

Module World.

Inductive level : Type := INFO | WARNING | ERROR.

(** What [get_transcript] returns for an available video: the texts of
    the entries under ['transcript'] ([None] when the key is absent)
    and the metadata dict, whose counts are already integers. *)
Record metadata : Type := mkMetadata {
  md_title : option string;
  md_author : option string;
  md_upload_date : option string;
  md_view_count : option Z;
  md_like_count : option Z;
  md_comment_count : option Z;
  md_duration : option string
}.

Record transcript_data : Type := mkTranscript {
  td_transcript : option (list string);
  td_metadata : metadata
}.

(** The [video_data] dict handed to [db_handler.add_video]. *)
Record video_data : Type := mkVideo {
  vd_video_id : string;
  vd_title : string;
  vd_author : string;
  vd_upload_date : string;
  vd_view_count : Z;
  vd_like_count : Z;
  vd_comment_count : Z;
  vd_video_duration : string
}.

(** A row of [data/ground-truth-retrieval.csv] as it is written
    (the question is whatever the model's JSON holds) and as it is read
    back. *)
Definition gt_item : Type := (string * json)%type.
Definition gt_row : Type := (string * string)%type.

(** A row of the [rag_evaluations] table. *)
Record eval_record : Type := mkEval {
  ev_video_id : string;
  ev_question : string;
  ev_answer : string;
  ev_relevance : string;
  ev_explanation : string
}.

(** Observable effects, in the order the program performs them. *)
Inductive event : Type :=
| Log (lv : level) (msg : string)
| Print (msg : string)
| Sleep (secs : Z)
| StError (msg : string)
| StWarning (msg : string)
| StSuccess (msg : string)
| StProgress (done total : nat)
| Chat (model prompt : string)
| Search (query : string) (num_results : Z) (method index_name : string)
| GetIndex (video_id embedding_model : string)
| GetTranscript (video_id : string)
| AddVideo (v : video_data)
| ProcessTranscript (video_id : string)
| BuildIndex (index_name : string)
| AddEmbeddingModel (name description : string)
| GetVideo (video_id : string)
| AddIndex (video_db_id : Z) (index_name : option string) (model_id : Z)
| ReadCsv (path : string)
| WriteCsv (path : string) (rows : list gt_item)
| StoreEvaluations (rows : list eval_record).

(** The collaborators.  The first argument of a stateful collaborator
    is the number of collaborator calls made before this one, so its
    answer may change from call to call.
    - [ollama_chat t model prompt]: [response['message']['content']] of
      [ollama.chat], or the exception of the call;
    - [dp_search]: [data_processor.search], the ['content'] of each hit;
    - [db_get_index]: [db_handler.get_elasticsearch_index_by_youtube_id];
    - [db_get_video]: first column of [get_video_by_youtube_id];
    - [dp_build_index]: [data_processor.build_index], whose result is
      a name or [None];
    - [write_csv]: [os.makedirs('data')] followed by [df.to_csv(path)];
    - [json_loads], [py_repr] ([str] of a value that is not a [str]),
      [df_sample] ([DataFrame.sample(n, random_state)], rows with their
      positions) and [str_lower] ([str.lower]) are pure library
      functions. *)
Record World : Type := mkWorld {
  ollama_chat : nat -> string -> string -> outcome string;
  dp_search : nat -> string -> Z -> string -> string -> outcome (list string);
  db_get_index : nat -> string -> string -> outcome (option string);
  get_transcript : nat -> string -> outcome (option transcript_data);
  db_add_video : nat -> video_data -> outcome unit;
  dp_process_transcript : nat -> string -> transcript_data -> outcome unit;
  dp_build_index : nat -> string -> outcome (option string);
  db_add_embedding_model : nat -> string -> string -> outcome Z;
  db_get_video : nat -> string -> outcome (option Z);
  db_add_index : nat -> Z -> option string -> Z -> outcome unit;
  read_csv : nat -> string -> outcome (list gt_row);
  store_evaluations : nat -> list eval_record -> outcome unit;
  json_loads : string -> outcome json;
  py_repr : json -> string;
  df_sample : list gt_row -> Z -> Z -> outcome (list (nat * gt_row));
  str_lower : string -> string;
  write_csv : nat -> string -> list gt_item -> outcome unit
}.

(** [str(v)] *)
Definition py_str (W : World) (v : json) : string :=
  match v with
  | JStr s => s
  | _ => py_repr W v
  end.

(** *** Program state and the computation monad *)

Record State : Type := mkState {
  tick : nat;
  trace : list event
}.

Definition M (A : Type) : Type := State -> outcome A * State.

Definition ret {A : Type} (v : A) : M A := fun s => (Ret v, s).

Definition raise {A : Type} (e : exn) : M A := fun s => (Raise e, s).

Definition bind {A B : Type} (m : M A) (k : A -> M B) : M B :=
  fun s =>
    match m s with
    | (Ret v, s') => k v s'
    | (Raise e, s') => (Raise e, s')
    end.

(** [try: m  except Exception as e: h e] *)
Definition try_except {A : Type} (m : M A) (h : exn -> M A) : M A :=
  fun s =>
    match m s with
    | (Ret v, s') => (Ret v, s')
    | (Raise e, s') => h e s'
    end.

(** An effect that cannot fail. *)
Definition emit (ev : event) : M unit :=
  fun s => (Ret tt, mkState (tick s) (trace s ++ [ev])).

(** A call to a collaborator. *)
Definition call {A : Type} (ev : event) (reply : nat -> outcome A) : M A :=
  fun s => (reply (tick s), mkState (S (tick s)) (trace s ++ [ev])).

(** Lifting of a pure fallible operation. *)
Definition lift {A : Type} (o : outcome A) : M A := fun s => (o, s).

(** How one pass through a loop body ends: [return v] or on to the
    next iteration. *)
Inductive flow (A : Type) : Type :=
| Return (v : A)
| Next.
Arguments Return {A} v.
Arguments Next {A}.

End World.
Export World.

Declare Scope py_scope.
Delimit Scope py_scope with py.
Notation "x <- m ;; k" := (bind m (fun x => k))
  (at level 61, m at next level, right associativity) : py_scope.
Notation "m ;; k" := (bind m (fun _ => k))
  (at level 61, right associativity) : py_scope.
Open Scope py_scope.

Definition blank : string := EmptyString.

(** A text given line by line. *)
Definition lines (l : list string) : string := join nl l.

(** ** app/rag.py *)

Module Rag.

(** The fields of a [RAGSystem] that its methods read:
    [OLLAMA_MODEL] (default phi3) and [int(OLLAMA_MAX_RETRIES)]
    (default 3). *)
Record RAGSystem : Type := mkRAG {
  model : string;
  max_retries : Z
}.

Definition default_rag : RAGSystem := mkRAG "phi3" 3.

Section Methods.

Variable W : World.
Variable self : RAGSystem.

(** One pass through the body of the [for attempt in range(...)] loop
    of [generate]. *)
Definition generate_attempt (prompt : string) (attempt : Z) : M (flow (option string)) :=
  try_except
    (content <- call (Chat (model self) prompt)
                     (fun t => ollama_chat W t (model self) prompt) ;;
     emit (Print ("Printing the response from OLLAMA: " ++ content)) ;;
     ret (Return (Some content)))
    (fun e =>
       emit (Log ERROR ("Error generating response on attempt "
                        ++ str_int (attempt + 1) ++ ": " ++ str_exn e)) ;;
       if attempt =? max_retries self - 1 then
         emit (Log ERROR "All retries exhausted. Unable to generate response.") ;;
         ret (Return None)
       else
         emit (Sleep (2 ^ attempt)) ;;
         ret Next).

(** The loop itself: [todo] iterations are left, the next one has
    index [attempt].  Falling out of the loop returns [None]. *)
Fixpoint generate_loop (prompt : string) (todo : nat) (attempt : Z) : M (option string) :=
  match todo with
  | O => ret None
  | S todo' =>
      r <- generate_attempt prompt attempt ;;
      match r with
      | Return v => ret v
      | Next => generate_loop prompt todo' (attempt + 1)
      end
  end.

(** [RAGSystem.generate]; [range(n)] has [max(n, 0)] elements. *)
Definition generate (prompt : string) : M (option string) :=
  generate_loop prompt (Z.to_nat (max_retries self)) 0.

(** [RAG_PROMPT_TEMPLATE.format(context=..., question=...)] *)
Definition RAG_PROMPT_TEMPLATE (context question : string) : string :=
  lines [
    "You are an AI assistant analyzing YouTube video transcripts. Your task is to answer questions based on the provided transcript context.";
    blank;
    "Context from transcript:";
    context;
    blank;
    "User Question: " ++ question;
    blank;
    "Please provide a clear, concise answer based only on the information given in the context. If the context doesn't contain enough information to fully answer the question, acknowledge this in your response.";
    blank;
    "Guidelines:";
    "1. Use only information from the provided context";
    "2. Be specific and direct in your answer";
    "3. If context is insufficient, say so";
    "4. Maintain accuracy and avoid speculation";
    "5. Use natural, conversational language" ].

(** [RAGSystem.get_prompt]; a document is given by its ['content']. *)
Definition get_prompt (user_query : string) (relevant_docs : list string) : string :=
  RAG_PROMPT_TEMPLATE (join nl relevant_docs) user_query.

Definition no_index_message : string :=
  "No index name provided. Please select a video and ensure it has been processed.".

Definition no_docs_answer : string :=
  "I couldn't find any relevant information to answer your query.".

(** [RAGSystem.query] *)
Definition query (user_query search_method : string) (index_name : option string)
  : M (string * string) :=
  try_except
    (match index_name with
     | Some name =>
         if truthy_str name then
           relevant_docs <- call (Search user_query 3 search_method name)
                                 (fun t => dp_search W t user_query 3 search_method name) ;;
           if negb (truthy_list relevant_docs) then
             emit (Log WARNING "No relevant documents found for the query.") ;;
             ret (no_docs_answer, blank)
           else
             let prompt := get_prompt user_query relevant_docs in
             answer <- call (Chat (model self) prompt)
                            (fun t => ollama_chat W t (model self) prompt) ;;
             ret (answer, prompt)
         else raise (mkExn ValueError no_index_message)
     | None => raise (mkExn ValueError no_index_message)
     end)
    (fun e =>
       emit (Log ERROR ("An error occurred in the RAG system: " ++ str_exn e)) ;;
       ret ("An error occurred: " ++ str_exn e, blank)).

Definition cot_prompt (query : string) : string :=
  lines [
    "Rewrite the following query using chain-of-thought reasoning:";
    blank;
    "Query: " ++ query;
    blank;
    "Rewritten query:" ].

Definition react_prompt (query : string) : string :=
  lines [
    "Rewrite the following query using ReAct (Reasoning and Acting) approach:";
    blank;
    "Query: " ++ query;
    blank;
    "Rewritten query:" ].

(** The shared tail of [rewrite_cot] and [rewrite_react]. *)
Definition rewrite_with (prompt query : string) : M (string * string) :=
  response <- generate prompt ;;
  match response with
  | Some text => if truthy_str text then ret (text, prompt) else ret (query, prompt)
  | None => ret (query, prompt)
  end.

(** [RAGSystem.rewrite_cot] *)
Definition rewrite_cot (query : string) : M (string * string) :=
  rewrite_with (cot_prompt query) query.

(** [RAGSystem.rewrite_react] *)
Definition rewrite_react (query : string) : M (string * string) :=
  rewrite_with (react_prompt query) query.

End Methods.

End Rag.

(** ** app/query_rewriter.py *)

Module Rewriter.

Record QueryRewriter : Type := mkRewriter { model : string }.

Definition default_rewriter : QueryRewriter := mkRewriter "phi3".

Section Methods.

Variable W : World.
Variable self : QueryRewriter.

(** [QueryRewriter.generate] *)
Definition generate (prompt : string) : M string :=
  try_except
    (call (Chat (model self) prompt) (fun t => ollama_chat W t (model self) prompt))
    (fun e =>
       emit (Log ERROR ("Error generating response: " ++ str_exn e)) ;;
       ret ("Error: " ++ str_exn e)).

Definition indent : string := "        ".

Definition cot_prompt (query : string) : string :=
  lines [
    blank;
    indent ++ "Rewrite the following query using Chain-of-Thought reasoning:";
    indent ++ "Query: " ++ query;
    indent;
    indent ++ "Rewritten query:";
    indent ].

Definition react_prompt (query : string) : string :=
  lines [
    blank;
    indent ++ "Rewrite the following query using the ReAct framework (Reasoning and Acting):";
    indent ++ "Query: " ++ query;
    indent;
    indent ++ "Thought 1:";
    indent ++ "Action 1:";
    indent ++ "Observation 1:";
    indent;
    indent ++ "Thought 2:";
    indent ++ "Action 2:";
    indent ++ "Observation 2:";
    indent;
    indent ++ "Final rewritten query:";
    indent ].

(** [QueryRewriter.rewrite_cot] *)
Definition rewrite_cot (query : string) : M (string * string) :=
  let prompt := cot_prompt query in
  rewritten_query <- generate prompt ;;
  if startswith rewritten_query "Error:" then
    emit (Log ERROR ("Error in CoT rewriting: " ++ rewritten_query)) ;;
    ret (query, prompt)
  else ret (rewritten_query, prompt).

(** [QueryRewriter.rewrite_react] *)
Definition rewrite_react (query : string) : M (string * string) :=
  let prompt := react_prompt query in
  rewritten_query <- generate prompt ;;
  if startswith rewritten_query "Error:" then
    emit (Log ERROR ("Error in ReAct rewriting: " ++ rewritten_query)) ;;
    ret (query, prompt)
  else ret (rewritten_query, prompt).

End Methods.

End Rewriter.

(** ** app/main.py *)

Module Main.

(** Early exit from a function body: run [m]; on [Return v] the
    function returns [v], on [Next] it goes on with [k]. *)
Definition and_then {A : Type} (m : M (flow A)) (k : M A) : M A :=
  r <- m ;;
  match r with
  | Return v => ret v
  | Next => k
  end.

(** [str(x)] of an optional string as a format argument. *)
Definition str_opt (o : option string) : string :=
  match o with
  | Some s => s
  | None => "None"
  end.

Definition gt_path : string := "data/ground-truth-retrieval.csv".

Definition judge_model : string := "phi3.5".

Definition eval_embedding_model : string := "all-MiniLM-L6-v2".

(** [prompt_template.format(transcript=transcript)] in
    [generate_questions], after [strip()]. *)
Definition questions_prompt (transcript : string) : string :=
  lines [
    "You are an AI assistant tasked with generating questions based on a YouTube video transcript.";
    "    Formulate atleast 10 questions that a user might ask based on the provided transcript.";
    "    Make the questions specific to the content of the transcript.";
    "    The questions should be complete and not too short. Use as few words as possible from the transcript.";
    "    It is important that the questions are relevant to the content of the transcript and are atleast 10 in number.";
    blank;
    "    The transcript:";
    blank;
    "    " ++ transcript;
    blank;
    "    Provide the output in parsable JSON without using code blocks:";
    blank;
    "    {" ++ dq ++ "questions" ++ dq ++ ": [" ++ dq ++ "question1" ++ dq ++ ", "
      ++ dq ++ "question2" ++ dq ++ ", ..., " ++ dq ++ "question10" ++ dq ++ "]}" ].

(** [prompt_template.format(question=..., answer_llm=...)] in
    [evaluate_rag], after [strip()]. *)
Definition judge_prompt (question answer_llm : string) : string :=
  lines [
    "You are an expert evaluator for a Youtube transcript assistant.";
    "    Your task is to analyze the relevance of the generated answer to the given question.";
    "    Based on the relevance of the generated answer, you will classify it";
    "    as " ++ dq ++ "NON_RELEVANT" ++ dq ++ ", " ++ dq ++ "PARTLY_RELEVANT" ++ dq
      ++ ", or " ++ dq ++ "RELEVANT" ++ dq ++ ".";
    blank;
    "    Here is the data for evaluation:";
    blank;
    "    Question: " ++ question;
    "    Generated Answer: " ++ answer_llm;
    blank;
    "    Please analyze the content and context of the generated answer in relation to the question";
    "    and provide your evaluation in parsable JSON without using code blocks:";
    blank;
    "    {";
    "      " ++ dq ++ "Relevance" ++ dq ++ ": " ++ dq ++ "NON_RELEVANT" ++ dq ++ " | "
      ++ dq ++ "PARTLY_RELEVANT" ++ dq ++ " | " ++ dq ++ "RELEVANT" ++ dq ++ ",";
    "      " ++ dq ++ "Explanation" ++ dq ++ ": " ++ dq
      ++ "[Provide a brief explanation for your evaluation]" ++ dq;
    "    }" ].

Section Functions.

Variable W : World.

(** The module-level [rag_system] built by [init_components]. *)
Variable rag_system : Rag.RAGSystem.

(** [generate_questions]; its result is the parsed reply, or [None]
    ([JNull]) from the handler. *)
Definition generate_questions (transcript : string) : M json :=
  let prompt := questions_prompt transcript in
  try_except
    (content <- call (Chat judge_model prompt)
                     (fun t => ollama_chat W t judge_model prompt) ;;
     emit (Print ("Printing the response from OLLAMA: " ++ content)) ;;
     lift (json_loads W content))
    (fun e =>
       emit (Log ERROR ("Error generating questions: " ++ str_exn e)) ;;
       ret JNull).

(** The first statements of [generate_ground_truth]: the transcript to
    use, or an early [return None]. *)
Definition resolve_transcript (video_id existing_transcript : option string)
  : M (flow (option (list gt_item)) * string) :=
  match video_id with
  | Some v =>
      if truthy_str v then
        transcript_data <- call (GetTranscript v) (fun t => get_transcript W t v) ;;
        match transcript_data with
        | Some (mkTranscript (Some texts) _) => ret (Next, join " " texts)
        | _ =>
            emit (Log ERROR "Failed to retrieve transcript for the provided video ID.") ;;
            emit (StError "Failed to retrieve transcript for the provided video ID.") ;;
            ret (Return None, blank)
        end
      else ret (Next, str_opt existing_transcript)
  | None =>
      match existing_transcript with
      | None =>
          emit (StError "Please provide either a video ID or an existing transcript.") ;;
          ret (Return None, blank)
      | Some t => ret (Next, t)
      end
  end.

(** [video_id if video_id else "custom"] *)
Definition video_label (video_id : option string) : string :=
  match video_id with
  | Some v => if truthy_str v then v else "custom"
  | None => "custom"
  end.

(** The test [questions and 'questions' in questions]. *)
Definition has_questions (questions : json) : outcome bool :=
  if truthy questions then contains "questions" questions else Ret false.

(** The second half of [generate_ground_truth], once the transcript
    text is known; the returned DataFrame is given by its rows. *)
Definition ground_truth_from (video_id : option string) (full_transcript : string)
  : M (option (list gt_item)) :=
  questions <- generate_questions full_transcript ;;
  ok <- lift (has_questions questions) ;;
  if ok then
    field <- lift (getitem "questions" questions) ;;
    qs <- lift (iter field) ;;
    let df := map (fun q => (video_label video_id, q)) qs in
    call (WriteCsv gt_path df) (fun t => write_csv W t gt_path df) ;;
    emit (StSuccess ("Ground truth data generated and saved to " ++ gt_path)) ;;
    ret (Some df)
  else
    emit (Log ERROR "Failed to generate questions.") ;;
    emit (StError "Failed to generate questions.") ;;
    ret None.

(** [generate_ground_truth] *)
Definition generate_ground_truth (video_id existing_transcript : option string)
  : M (option (list gt_item)) :=
  r <- resolve_transcript video_id existing_transcript ;;
  match r with
  | (Return v, _) => ret v
  | (Next, full_transcript) => ground_truth_from video_id full_transcript
  end.

(** The draw in [evaluate_rag]:
    [ground_truth.sample(n=min(sample_size, len(ground_truth)), random_state=1)]. *)
Definition draw_sample (ground_truth : list gt_row) (sample_size : Z)
  : outcome (list (nat * gt_row)) :=
  df_sample W ground_truth (Z.min sample_size (Z.of_nat (List.length ground_truth))) 1.

(** The judge call of one item: the tuple to append, or the exception
    of [ollama.chat], [json.loads] or [.get]. *)
Definition judge (video_id question answer_llm : string) : M eval_record :=
  let prompt := judge_prompt question answer_llm in
  content <- call (Chat judge_model prompt)
                  (fun t => ollama_chat W t judge_model prompt) ;;
  evaluation_json <- lift (json_loads W content) ;;
  relevance <- lift (get "Relevance" (JStr "UNKNOWN") evaluation_json) ;;
  explanation <- lift (get "Explanation" (JStr "No explanation provided") evaluation_json) ;;
  ret (mkEval video_id question answer_llm (py_str W relevance) (py_str W explanation)).

(** The body of the [for i, (_, row) in enumerate(sample.iterrows())]
    loop of [evaluate_rag]; it yields the list [evaluations] after this
    item.  [continue] skips the progress update. *)
Definition evaluate_item (i total : nat) (row : gt_row) (evaluations : list eval_record)
  : M (list eval_record) :=
  let question := snd row in
  let video_id := fst row in
  index_name <- call (GetIndex video_id eval_embedding_model)
                     (fun t => db_get_index W t video_id eval_embedding_model) ;;
  if negb (truthy_opt truthy_str index_name) then
    emit (Log WARNING ("No index found for video " ++ video_id ++ ". Skipping this question.")) ;;
    ret evaluations
  else
    r <- try_except
           (ap <- Rag.query W rag_system question "hybrid" index_name ;;
            ret (Some (fst ap)))
           (fun e =>
              if is_ValueError e then
                emit (Log ERROR ("Error querying RAG system: " ++ str_exn e)) ;;
                ret None
              else raise e) ;;
    match r with
    | None => ret evaluations
    | Some answer_llm =>
        evaluations' <-
          try_except
            (row_out <- judge video_id question answer_llm ;;
             ret (evaluations ++ [row_out])%list)
            (fun e =>
               emit (Log WARNING ("Failed to evaluate question: " ++ question
                                  ++ ". Error: " ++ str_exn e)) ;;
               emit (StWarning ("Failed to evaluate question: " ++ question)) ;;
               ret evaluations) ;;
        emit (StProgress (i + 1) total) ;;
        ret evaluations'
    end.

Fixpoint evaluate_loop (i total : nat) (sample : list (nat * gt_row))
  (evaluations : list eval_record) : M (list eval_record) :=
  match sample with
  | [] => ret evaluations
  | (_, row) :: rest =>
      evaluations' <- evaluate_item i total row evaluations ;;
      evaluate_loop (S i) total rest evaluations'
  end.

(** The first statements of [evaluate_rag]: the ground-truth rows, or
    [None] when the file is missing. *)
Definition load_ground_truth : M (option (list gt_row)) :=
  try_except
    (ground_truth <- call (ReadCsv gt_path) (fun t => read_csv W t gt_path) ;;
     ret (Some ground_truth))
    (fun e =>
       if is_FileNotFoundError e then
         emit (Log ERROR "Ground truth file not found. Please generate ground truth data first.") ;;
         emit (StError "Ground truth file not found. Please generate ground truth data first.") ;;
         ret None
       else raise e).

(** What [evaluate_rag] does with the sample once it is drawn: the
    loop, the insertion into [rag_evaluations], the final messages. *)
Definition evaluate_sample (sample : list (nat * gt_row)) : M (option (list eval_record)) :=
  emit (StProgress 0 1) ;;
  evaluations <- evaluate_loop 0 (List.length sample) sample [] ;;
  call (StoreEvaluations evaluations) (fun t => store_evaluations W t evaluations) ;;
  emit (Log INFO "Evaluation complete. Results stored in the database.") ;;
  emit (StSuccess "Evaluation complete. Results stored in the database.") ;;
  ret (Some evaluations).

(** [evaluate_rag] *)
Definition evaluate_rag (sample_size : Z) : M (option (list eval_record)) :=
  loaded <- load_ground_truth ;;
  match loaded with
  | None => ret None
  | Some ground_truth =>
      sample <- lift (draw_sample ground_truth sample_size) ;;
      evaluate_sample sample
  end.

(** The [video_data] dict of [process_single_video], with the defaults
    of its [.get] calls. *)
Definition video_data_of (video_id : string) (md : metadata) : video_data :=
  mkVideo video_id
    (match md_title md with Some x => x | None => "Unknown Title" end)
    (match md_author md with Some x => x | None => "Unknown Author" end)
    (match md_upload_date md with Some x => x | None => "Unknown Date" end)
    (match md_view_count md with Some x => x | None => 0 end)
    (match md_like_count md with Some x => x | None => 0 end)
    (match md_comment_count md with Some x => x | None => 0 end)
    (match md_duration md with Some x => x | None => "Unknown Duration" end).

(** What [process_single_video] does when no index is registered yet
    for the pair: fetch, store, process, build, register.  The result
    of [build_index] (a name or [None]) is logged, registered and
    returned as it is. *)
Definition build_and_register (video_id embedding_model : string) : M (option string) :=
  transcript_data <- call (GetTranscript video_id) (fun t => get_transcript W t video_id) ;;
  match transcript_data with
  | None =>
      emit (Log ERROR ("Failed to retrieve transcript for video " ++ video_id)) ;;
      ret None
  | Some td =>
      let video := video_data_of video_id (td_metadata td) in
      and_then
        (try_except
           (call (AddVideo video) (fun t => db_add_video W t video) ;; ret Next)
           (fun e =>
              emit (Log ERROR ("Error adding video to database: " ++ str_exn e)) ;;
              ret (Return None)))
     (and_then
        (try_except
           (call (ProcessTranscript video_id)
                 (fun t => dp_process_transcript W t video_id td) ;; ret Next)
           (fun e =>
              emit (Log ERROR ("Error processing transcript: " ++ str_exn e)) ;;
              ret (Return None)))
     (let requested := str_lower W ("video_" ++ video_id ++ "_" ++ embedding_model) in
      built <- try_except
                 (index_name <- call (BuildIndex requested)
                                     (fun t => dp_build_index W t requested) ;;
                  emit (Log INFO ("Successfully built index: " ++ str_opt index_name)) ;;
                  ret (Some index_name))
                 (fun e =>
                    emit (Log ERROR ("Error building index: " ++ str_exn e)) ;;
                    ret None) ;;
      match built with
      | None => ret None
      | Some index_name =>
          embedding_model_id <-
            call (AddEmbeddingModel embedding_model "Description of the model")
                 (fun t => db_add_embedding_model W t embedding_model
                                                  "Description of the model") ;;
          video_db_record <- call (GetVideo video_id) (fun t => db_get_video W t video_id) ;;
          match video_db_record with
          | None =>
              emit (Log ERROR ("Failed to retrieve video record from database for video "
                               ++ video_id)) ;;
              ret None
          | Some video_db_id =>
              call (AddIndex video_db_id index_name embedding_model_id)
                   (fun t => db_add_index W t video_db_id index_name embedding_model_id) ;;
              emit (Log INFO ("Processed and indexed transcript for video " ++ video_id)) ;;
              ret index_name
          end
      end))
  end.

(** [process_single_video], the function under [st.cache_data]: this
    is the body that runs whenever Streamlit has no stored result for
    the arguments. *)
Definition process_single_video (video_id embedding_model : string) : M (option string) :=
  existing_index <- call (GetIndex video_id embedding_model)
                         (fun t => db_get_index W t video_id embedding_model) ;;
  if truthy_opt truthy_str existing_index then
    emit (Log INFO ("Video " ++ video_id ++ " has already been processed with "
                    ++ embedding_model ++ ". Using existing index: "
                    ++ str_opt existing_index)) ;;
    ret existing_index
  else build_and_register video_id embedding_model.

(** The loop of [process_multiple_videos]. *)
Fixpoint process_loop (embedding_model : string) (video_ids : list string)
  (indices : list string) : M (list string) :=
  match video_ids with
  | [] => ret indices
  | video_id :: rest =>
      index <- process_single_video video_id embedding_model ;;
      process_loop embedding_model rest
        (match index with
         | Some name => if truthy_str name then (indices ++ [name])%list else indices
         | None => indices
         end)
  end.

(** [process_multiple_videos] *)
Definition process_multiple_videos (video_ids : list string) (embedding_model : string)
  : M (list string) :=
  indices <- process_loop embedding_model video_ids [] ;;
  emit (Log INFO ("Processed and indexed transcripts for "
                  ++ str_nat (List.length indices) ++ " videos")) ;;
  emit (StSuccess ("Processed and indexed transcripts for "
                   ++ str_nat (List.length indices) ++ " videos")) ;;
  ret indices.

End Functions.

End Main.

(** ** Observations on traces *)

Module Probe.

(** The attempts and waits of a run, in order. *)
Inductive step : Type :=
| Attempt
| Wait (secs : Z).

Fixpoint schedule (tr : list event) : list step :=
  match tr with
  | [] => []
  | Chat _ _ :: rest => Attempt :: schedule rest
  | Sleep d :: rest => Wait d :: schedule rest
  | _ :: rest => schedule rest
  end.

(** Number of model calls in a trace. *)
Fixpoint attempts (tr : list event) : nat :=
  match tr with
  | [] => O
  | Chat _ _ :: rest => S (attempts rest)
  | _ :: rest => attempts rest
  end.

(** The durations slept, in order. *)
Fixpoint sleeps (tr : list event) : list Z :=
  match tr with
  | [] => []
  | Sleep d :: rest => d :: sleeps rest
  | _ :: rest => sleeps rest
  end.

(** The attempts and the waits of a retry schedule. *)
Definition count_attempts (l : list step) : nat :=
  List.length (filter (fun x => match x with Attempt => true | Wait _ => false end) l).

Fixpoint waits (l : list step) : list Z :=
  match l with
  | [] => []
  | Attempt :: rest => waits rest
  | Wait d :: rest => d :: waits rest
  end.

(** [k] failed attempts starting at index [from], each followed by its
    wait, then one more attempt. *)
Fixpoint retry_schedule (from : Z) (k : nat) : list step :=
  match k with
  | O => [Attempt]
  | S k' => Attempt :: Wait (2 ^ from) :: retry_schedule (from + 1) k'
  end.

(** 1, 2, 4, ...: the first [k] powers of two from [2 ^ from]. *)
Fixpoint backoff (from : Z) (k : nat) : list Z :=
  match k with
  | O => []
  | S k' => 2 ^ from :: backoff (from + 1) k'
  end.

(** Is this event a rebuild step of the indexer (a transcript fetch, a
    write to the video table, chunking, an index build, a registry
    write)? *)
Definition is_rebuild (ev : event) : bool :=
  match ev with
  | GetTranscript _ | AddVideo _ | ProcessTranscript _ | BuildIndex _
  | AddEmbeddingModel _ _ | AddIndex _ _ _ => true
  | _ => false
  end.

(** The rows handed to the [rag_evaluations] table during a run. *)
Fixpoint persisted (tr : list event) : list eval_record :=
  match tr with
  | [] => []
  | StoreEvaluations rows :: rest => (rows ++ persisted rest)%list
  | _ :: rest => persisted rest
  end.

(** What [RAGSystem.query] returns, and logs, for a failure with
    message [msg]. *)
Definition error_answer (msg : string) : string * string :=
  ("An error occurred: " ++ msg, blank).

Definition error_log (msg : string) : event :=
  Log ERROR ("An error occurred in the RAG system: " ++ msg).

(** What [generate_ground_truth] logs and shows when it has no
    questions to write. *)
Definition gt_failure_trace : list event :=
  [Log ERROR "Failed to generate questions."; StError "Failed to generate questions."].

End Probe.
Export Probe.

(** ** Concrete worlds

    Small scripted collaborators, used to run the functions above on
    concrete inputs. *)

Module Scenario.

(** The rows of a frame with their positions. *)
Fixpoint number_rows (i : nat) (rows : list gt_row) : list (nat * gt_row) :=
  match rows with
  | [] => []
  | r :: rest => (i, r) :: number_rows (S i) rest
  end.

(** A sampler that keeps the first [n] rows.  It has the interface and
    the error cases of [DataFrame.sample] without replacement. *)
Definition head_sample (rows : list gt_row) (n : Z) (random_state : Z)
  : outcome (list (nat * gt_row)) :=
  if n <? 0 then
    Raise (mkExn ValueError "A negative number of rows requested. Please provide `n` >= 0.")
  else if Z.of_nat (List.length rows) <? n then
    Raise (mkExn ValueError "Cannot take a larger sample than population when 'replace=False'")
  else Ret (firstn (Z.to_nat n) (number_rows 0 rows)).

(** [json.loads] restricted to a finite table of texts; every other
    text is taken not to parse. *)
Fixpoint table_loads (table : list (string * json)) (text : string) : outcome json :=
  match table with
  | [] => Raise (mkExn JSONDecodeError "Expecting value: line 1 column 1 (char 0)")
  | (t, v) :: rest => if String.eqb text t then Ret v else table_loads rest text
  end.

Definition boom : exn := mkExn ConnectionError "connection refused".

(** A world in which the model behaves as [chat] says, nothing is
    indexed, searches find nothing, there is no ground-truth file,
    builds and writes succeed, the texts of [table] parse, and
    lower-casing is that of ASCII strings. *)
Definition scripted (chat : nat -> string -> string -> outcome string)
  (table : list (string * json)) : World :=
  mkWorld
    chat
    (fun _ _ _ _ _ => Ret [])
    (fun _ _ _ => Ret None)
    (fun _ _ => Ret None)
    (fun _ _ => Ret tt)
    (fun _ _ _ => Ret tt)
    (fun _ name => Ret (Some name))
    (fun _ _ _ => Ret 1)
    (fun _ _ => Ret (Some 1))
    (fun _ _ _ _ => Ret tt)
    (fun _ _ => Raise (mkExn FileNotFoundError "No such file or directory"))
    (fun _ _ => Ret tt)
    (table_loads table)
    (fun _ => "<object>")
    head_sample
    ascii_lower
    (fun _ _ _ => Ret tt).

(** The model fails on its first [k] calls and answers [text] from
    then on. *)
Definition fails_then (k : nat) (text : string) : nat -> string -> string -> outcome string :=
  fun t _ _ => if Nat.ltb t k then Raise boom else Ret text.

Definition always_fails : nat -> string -> string -> outcome string :=
  fun _ _ _ => Raise boom.

Definition start : State := mkState 0 [].

(** Overriding one collaborator of a world. *)
Definition with_search (W : World)
  (f : nat -> string -> Z -> string -> string -> outcome (list string)) : World :=
  mkWorld (ollama_chat W) f (db_get_index W) (get_transcript W) (db_add_video W)
    (dp_process_transcript W) (dp_build_index W) (db_add_embedding_model W)
    (db_get_video W) (db_add_index W) (read_csv W) (store_evaluations W)
    (json_loads W) (py_repr W) (df_sample W) (str_lower W) (write_csv W).

Definition with_index (W : World)
  (f : nat -> string -> string -> outcome (option string)) : World :=
  mkWorld (ollama_chat W) (dp_search W) f (get_transcript W) (db_add_video W)
    (dp_process_transcript W) (dp_build_index W) (db_add_embedding_model W)
    (db_get_video W) (db_add_index W) (read_csv W) (store_evaluations W)
    (json_loads W) (py_repr W) (df_sample W) (str_lower W) (write_csv W).

Definition with_csv (W : World) (rows : list gt_row) : World :=
  mkWorld (ollama_chat W) (dp_search W) (db_get_index W) (get_transcript W)
    (db_add_video W) (dp_process_transcript W) (dp_build_index W)
    (db_add_embedding_model W) (db_get_video W) (db_add_index W)
    (fun _ _ => Ret rows) (store_evaluations W)
    (json_loads W) (py_repr W) (df_sample W) (str_lower W) (write_csv W).

(** The model answers [ok] to everything; no index, no documents. *)
Definition idle : World := scripted (fun _ _ _ => Ret "ok") [].

(** The model is unreachable. *)
Definition model_down : World := scripted always_fails [].

(** The model completes successfully, with a text that begins with
    the word Error and a colon. *)
Definition error_like_text : string := "Error: 404 meaning and common causes".

Definition error_like : World := scripted (fun _ _ _ => Ret error_like_text) [].

(** As [idle], with a search backend that is down. *)
Definition search_down : World := with_search idle (fun _ _ _ _ _ => Raise boom).

(** As [idle], with every search returning one passage. *)
Definition bee_transcript : string :=
  "Bees communicate by dancing. The waggle dance indicates direction and distance to food.".

Definition bees : list string := [bee_transcript].

Definition one_passage : World := with_search idle (fun _ _ _ _ _ => Ret bees).

(** Every (video, model) pair has the index [video_abc_all-minilm-l6-v2]
    registered. *)
Definition abc_index : string := "video_abc_all-minilm-l6-v2".

Definition indexed (W : World) : World :=
  with_index W (fun _ _ _ => Ret (Some abc_index)).

(** A JSON object text with two string members. *)
Definition object2 (k1 v1 k2 v2 : string) : string :=
  "{" ++ dq ++ k1 ++ dq ++ ": " ++ dq ++ v1 ++ dq ++ ", "
      ++ dq ++ k2 ++ dq ++ ": " ++ dq ++ v2 ++ dq ++ "}".

Definition bee_question : string := "How do bees show direction?".

Definition bee_rows : list gt_row := [("abc", bee_question)].

(** A judge that answers in the requested format. *)
Definition verdict_text : string :=
  object2 "Relevance" "NON_RELEVANT" "Explanation" "The answer is an error message.".

Definition verdict : json :=
  JDict [("Relevance", JStr "NON_RELEVANT");
         ("Explanation", JStr "The answer is an error message.")].

(** A judge that answers with lower-case member names. *)
Definition lowercase_verdict_text : string :=
  object2 "relevance" "RELEVANT" "explanation" "Matches the transcript.".

Definition lowercase_verdict : json :=
  JDict [("relevance", JStr "RELEVANT");
         ("explanation", JStr "Matches the transcript.")].

(** The answering model ([phi3]) says [answer]; the judge ([phi3.5])
    says [judge_text]. *)
Definition two_models (answer judge_text : string) : nat -> string -> string -> outcome string :=
  fun _ model _ => if String.eqb model Main.judge_model then Ret judge_text else Ret answer.

(** One ground-truth row whose video is indexed; the search backend is
    down; the judge answers in the requested format. *)
Definition failed_query_run : World :=
  with_csv
    (indexed
       (with_search
          (scripted (two_models "unused" verdict_text) [(verdict_text, verdict)])
          (fun _ _ _ _ _ => Raise boom)))
    bee_rows.

(** One ground-truth row whose video is indexed; search and answer
    succeed; the judge answers with lower-case member names. *)
Definition lowercase_judge_run : World :=
  with_csv
    (indexed
       (with_search
          (scripted (two_models "By the waggle dance." lowercase_verdict_text)
             [(lowercase_verdict_text, lowercase_verdict)])
          (fun _ _ _ _ _ => Ret bees)))
    bee_rows.

(** Replies of the question-writing model. *)
Definition number_field_text : string :=
  "{" ++ dq ++ "questions" ++ dq ++ ": 7}".

Definition number_field : json := JDict [("questions", JInt 7)].

Definition bare_string_text : string :=
  dq ++ "Here are the questions you asked for." ++ dq.

Definition bare_string : json := JStr "Here are the questions you asked for.".

Definition two_questions_text : string :=
  "{" ++ dq ++ "questions" ++ dq ++ ": [" ++ dq ++ "How do bees communicate?" ++ dq
      ++ ", " ++ dq ++ "What does the waggle dance indicate?" ++ dq ++ "]}".

Definition two_questions : json :=
  JDict [("questions", JList [JStr "How do bees communicate?";
                              JStr "What does the waggle dance indicate?"])].

Definition question_writer (reply : string) : World :=
  scripted (fun _ _ _ => Ret reply)
    [(number_field_text, number_field);
     (bare_string_text, bare_string);
     (two_questions_text, two_questions)].

End Scenario.

(** ** Contracts of library functions and derived notions *)

Module Contract.

(** [DataFrame.sample(n=n, random_state=seed)] with the default
    [replace=False]: for [0 <= n <= len(df)] it returns [n] rows of the
    frame at pairwise distinct positions. *)
Definition samples_without_replacement (W : World) : Prop :=
  forall (rows : list gt_row) (n seed : Z),
    0 <= n <= Z.of_nat (List.length rows) ->
    exists sample,
      df_sample W rows n seed = Ret sample
      /\ List.length sample = Z.to_nat n
      /\ NoDup (map fst sample)
      /\ (forall i r, In (i, r) sample -> nth_error rows i = Some r).

(** [str.lower] on a text of ASCII characters only: the letters A to Z
    become a to z and every other character is kept.  (Outside ASCII
    [str.lower] follows the Unicode case mappings, which are left to
    the world.) *)
Definition lowers_ascii (W : World) : Prop :=
  forall x : string, is_ascii x = true -> str_lower W x = ascii_lower x.

(** The three labels the judge is asked to choose from. *)
Definition relevance_labels : list string :=
  ["NON_RELEVANT"; "PARTLY_RELEVANT"; "RELEVANT"].

(** The judge was asked about the question and the answer of [x] in a
    call made at some time [t] with [lo <= t < hi]; its reply to that
    call parsed to a JSON object; and the relevance of [x] is [str] of
    the ['Relevance'] member of that object, or [UNKNOWN] when the
    object has no such member. *)
Definition label_from_judge (W : World) (lo hi : nat) (x : eval_record) : Prop :=
  exists (t : nat) (text : string) (items : list (string * json)),
    (lo <= t < hi)%nat
    /\ ollama_chat W t Main.judge_model
         (Main.judge_prompt (ev_question x) (ev_answer x)) = Ret text
    /\ json_loads W text = Ret (JDict items)
    /\ ev_relevance x =
         py_str W (match dict_lookup "Relevance" items with
                   | Some v => v
                   | None => JStr "UNKNOWN"
                   end).

(** A computation never turns the call counter back. *)
Definition advances {A : Type} (m : M A) : Prop :=
  forall s r s', m s = (r, s') -> (tick s <= tick s')%nat.

(** A computation that inserts nothing into [rag_evaluations]. *)
Definition stores_nothing {A : Type} (m : M A) : Prop :=
  forall s r s', m s = (r, s') -> persisted (trace s') = persisted (trace s).

Definition is_store (ev : event) : bool :=
  match ev with
  | StoreEvaluations _ => true
  | _ => false
  end.

End Contract.
Export Contract.

(** ** app/rag.py: start-up *)

Module Startup.

(** The two calls of the Ollama client that only the constructor of
    [RAGSystem] makes: [ollama.list()] and [ollama.pull(model)]. *)
Record Service : Type := mkService {
  ollama_list : nat -> outcome unit;
  ollama_pull : nat -> string -> outcome unit
}.

(** A call to a collaborator that leaves no event in the trace. *)
Definition ask {A : Type} (reply : nat -> outcome A) : M A :=
  fun s => (reply (tick s), mkState (S (tick s)) (trace s)).

Section Methods.

Variable svc : Service.
Variable self : Rag.RAGSystem.

(** [self.ollama_host], read from [OLLAMA_HOST]. *)
Variable ollama_host : string.

(** [RAGSystem.pull_model] *)
Definition pull_model : M unit :=
  try_except
    (ask (fun t => ollama_pull svc t (Rag.model self)) ;;
     emit (Log INFO ("Successfully pulled model " ++ Rag.model self ++ ".")))
    (fun e =>
       emit (Log ERROR ("Error pulling model " ++ Rag.model self ++ ": " ++ str_exn e))).

(** [RAGSystem.check_ollama_service] *)
Definition check_ollama_service : M unit :=
  try_except
    (ask (ollama_list svc) ;;
     emit (Log INFO "Ollama service is accessible.") ;;
     pull_model)
    (fun e =>
       emit (Log ERROR ("An error occurred while connecting to Ollama: " ++ str_exn e)) ;;
       emit (Log ERROR ("Please ensure Ollama is running and accessible at "
                        ++ ollama_host))).

End Methods.

End Startup.

(** ** Further observations *)

Module Measure.

(** Sum of a list of durations. *)
Definition total (l : list Z) : Z := fold_right Z.add 0 l.

(** [l] is [l'] with some elements left out. *)
Inductive subseq {A : Type} : list A -> list A -> Prop :=
| subseq_nil : subseq [] []
| subseq_skip (x : A) (l l' : list A) : subseq l l' -> subseq l (x :: l')
| subseq_keep (x : A) (l l' : list A) : subseq l l' -> subseq (x :: l) (x :: l').

(** The ground-truth row an evaluation record is about. *)
Definition item_of (x : eval_record) : gt_row := (ev_video_id x, ev_question x).

(** The index name [process_single_video] asks the data processor to
    build: [f"video_{video_id}_{embedding_model}".lower()]. *)
Definition requested_index_name (W : World) (video_id embedding_model : string) : string :=
  str_lower W ("video_" ++ video_id ++ "_" ++ embedding_model).

Definition is_add_index (ev : event) : bool :=
  match ev with
  | AddIndex _ _ _ => true
  | _ => false
  end.

Definition is_write_csv (ev : event) : bool :=
  match ev with
  | WriteCsv _ _ => true
  | _ => false
  end.

Definition is_st_error (ev : event) : bool :=
  match ev with
  | StError _ => true
  | _ => false
  end.

Definition is_st_success (ev : event) : bool :=
  match ev with
  | StSuccess _ => true
  | _ => false
  end.

Definition is_chat (ev : event) : bool :=
  match ev with
  | Chat _ _ => true
  | _ => false
  end.

(** Number of searches of the index in a trace. *)
Fixpoint searches (tr : list event) : nat :=
  match tr with
  | [] => O
  | Search _ _ _ _ :: rest => S (searches rest)
  | _ :: rest => searches rest
  end.

(** Does the registry answer with a usable index name? *)
Definition usable (index_name : option string) : bool := truthy_opt truthy_str index_name.

(** Ground-truth rows for scripted runs: two videos, one of them not
    indexed. *)
Definition mixed_rows : list gt_row :=
  [("abc", "How do bees show direction?");
   ("zzz", "What is the capital of France?");
   ("abc", "What does the waggle dance indicate?")].

(** Only video [abc] has an index. *)
Definition only_abc : nat -> string -> string -> outcome (option string) :=
  fun _ video_id _ =>
    if String.eqb video_id "abc" then Ret (Some Scenario.abc_index) else Ret None.

Definition only_abc_index (video_id : string) : option string :=
  if String.eqb video_id "abc" then Some Scenario.abc_index else None.

Definition mixed_run : World :=
  Scenario.with_csv
    (Scenario.with_index
       (Scenario.with_search
          (Scenario.scripted
             (Scenario.two_models "By the waggle dance." Scenario.verdict_text)
             [(Scenario.verdict_text, Scenario.verdict)])
          (fun _ _ _ _ _ => Ret Scenario.bees))
       only_abc)
    mixed_rows.

(** A transcript source that knows one video. *)
Definition bee_video : transcript_data :=
  mkTranscript (Some ["Bees communicate by dancing."; "The waggle dance indicates direction."])
    (mkMetadata (Some "Bees") None None (Some 1200) None None (Some "3:10")).

Definition with_transcript (W : World)
  (f : nat -> string -> outcome (option transcript_data)) : World :=
  mkWorld (ollama_chat W) (dp_search W) (db_get_index W) f (db_add_video W)
    (dp_process_transcript W) (dp_build_index W) (db_add_embedding_model W)
    (db_get_video W) (db_add_index W) (read_csv W) (store_evaluations W)
    (json_loads W) (py_repr W) (df_sample W) (str_lower W) (write_csv W).

Definition bee_library : World :=
  with_transcript Scenario.idle (fun _ _ => Ret (Some bee_video)).

End Measure.
Export Measure.

(** * Properties *)

(** ** Running the monad *)

Section Run.

Context {A B : Type}.

Lemma bind_Ret (m : M A) (k : A -> M B) (s s' : State) (v : A) :
  m s = (Ret v, s') -> bind m k s = k v s'.
Proof. intros H. unfold bind. now rewrite H. Qed.

Lemma bind_Raise (m : M A) (k : A -> M B) (s s' : State) (e : exn) :
  m s = (Raise e, s') -> bind m k s = (Raise e, s').
Proof. intros H. unfold bind. now rewrite H. Qed.

Lemma try_Ret (m : M A) (h : exn -> M A) (s s' : State) (v : A) :
  m s = (Ret v, s') -> try_except m h s = (Ret v, s').
Proof. intros H. unfold try_except. now rewrite H. Qed.

Lemma try_Raise (m : M A) (h : exn -> M A) (s s' : State) (e : exn) :
  m s = (Raise e, s') -> try_except m h s = h e s'.
Proof. intros H. unfold try_except. now rewrite H. Qed.

End Run.

Lemma retry_schedule_attempts (k : nat) (from : Z) :
  count_attempts (retry_schedule from k) = S k.
Proof.
  revert from; induction k as [|k IH]; intros from; [reflexivity|].
  unfold count_attempts in *. simpl. now rewrite IH.
Qed.

Lemma retry_schedule_waits (k : nat) (from : Z) :
  waits (retry_schedule from k) = backoff from k.
Proof.
  revert from; induction k as [|k IH]; intros from; [reflexivity|].
  simpl. now rewrite IH.
Qed.

Lemma schedule_attempts (tr : list event) :
  count_attempts (schedule tr) = attempts tr.
Proof.
  induction tr as [|ev tr IH]; [reflexivity|].
  unfold count_attempts in *. destruct ev; simpl; now rewrite ?IH.
Qed.

Lemma schedule_waits (tr : list event) :
  waits (schedule tr) = sleeps tr.
Proof.
  induction tr as [|ev tr IH]; [reflexivity|].
  destruct ev; simpl; now rewrite ?IH.
Qed.

(** ** RAGSystem.generate: bounded retries with doubling backoff *)

Section Generate.

Variable W : World.
Variable self : Rag.RAGSystem.
Variable prompt : string.

Let chat (t : nat) : outcome string := ollama_chat W t (Rag.model self) prompt.

Lemma attempt_success (a : Z) (s : State) (text : string) :
  chat (tick s) = Ret text ->
  Rag.generate_attempt W self prompt a s =
    (Ret (Return (Some text)),
     mkState (S (tick s))
       (trace s ++ [Chat (Rag.model self) prompt;
                    Print ("Printing the response from OLLAMA: " ++ text)])).
Proof.
  intros H. unfold Rag.generate_attempt, try_except, bind, call, emit, ret.
  unfold chat in H. rewrite H. simpl. now rewrite <- app_assoc.
Qed.

Lemma attempt_failure_retry (a : Z) (s : State) (e : exn) :
  chat (tick s) = Raise e ->
  a <> Rag.max_retries self - 1 ->
  exists msg,
    Rag.generate_attempt W self prompt a s =
      (Ret Next,
       mkState (S (tick s))
         (trace s ++ [Chat (Rag.model self) prompt; Log ERROR msg; Sleep (2 ^ a)])).
Proof.
  intros H Ha. apply Z.eqb_neq in Ha.
  eexists. unfold Rag.generate_attempt, try_except, bind, call, emit, ret.
  unfold chat in H. rewrite H. simpl. rewrite Ha. simpl.
  now rewrite <- !app_assoc.
Qed.

Lemma attempt_failure_last (a : Z) (s : State) (e : exn) :
  chat (tick s) = Raise e ->
  a = Rag.max_retries self - 1 ->
  exists msg,
    Rag.generate_attempt W self prompt a s =
      (Ret (Return None),
       mkState (S (tick s))
         (trace s ++ [Chat (Rag.model self) prompt; Log ERROR msg;
                      Log ERROR "All retries exhausted. Unable to generate response."])).
Proof.
  intros H Ha. apply Z.eqb_eq in Ha.
  eexists. unfold Rag.generate_attempt, try_except, bind, call, emit, ret.
  unfold chat in H. rewrite H. simpl. rewrite Ha. simpl.
  now rewrite <- !app_assoc.
Qed.

(** Whatever the model does, the loop returns (it never raises), and
    it calls the model at most [todo] times. *)
Lemma generate_loop_bounded (todo : nat) :
  forall (a : Z) (s : State),
  exists (v : option string) (tr : list event),
    Rag.generate_loop W self prompt todo a s
      = (Ret v, mkState (tick s + attempts tr) (trace s ++ tr))
    /\ (attempts tr <= todo)%nat.
Proof.
  induction todo as [|todo IH]; intros a s.
  - exists None, []. simpl. unfold ret. rewrite Nat.add_0_r, app_nil_r.
    destruct s; auto.
  - simpl. destruct (chat (tick s)) as [text|e] eqn:Hc.
    + exists (Some text),
        [Chat (Rag.model self) prompt;
         Print ("Printing the response from OLLAMA: " ++ text)].
      split; [|simpl; lia].
      erewrite bind_Ret by (apply attempt_success; eassumption).
      unfold ret. simpl. do 2 f_equal. lia.
    + destruct (Z.eq_dec a (Rag.max_retries self - 1)) as [Ha|Ha].
      * destruct (attempt_failure_last a s e Hc Ha) as [msg Hm].
        exists None,
          [Chat (Rag.model self) prompt; Log ERROR msg;
           Log ERROR "All retries exhausted. Unable to generate response."].
        split; [|simpl; lia].
        erewrite bind_Ret by exact Hm. unfold ret. simpl. do 2 f_equal. lia.
      * destruct (attempt_failure_retry a s e Hc Ha) as [msg Hm].
        match type of Hm with _ = (_, ?s1) =>
          destruct (IH (a + 1) s1) as (v & tr & Hrun & Hle) end.
        exists v,
          (Chat (Rag.model self) prompt :: Log ERROR msg :: Sleep (2 ^ a) :: tr).
        split; [|simpl; lia].
        erewrite bind_Ret by exact Hm. cbv beta iota. rewrite Hrun. simpl.
        rewrite <- app_assoc. simpl. do 2 f_equal. lia.
Qed.

(** [k] failures followed by a success, with iterations to spare: the
    loop returns the success text after [k + 1] calls and has slept
    [2 ^ a], [2 ^ (a + 1)], ... after each failure. *)
Lemma generate_loop_success (k : nat) :
  forall (todo : nat) (a : Z) (s : State) (text : string),
  (k < todo)%nat ->
  a + Z.of_nat todo = Rag.max_retries self ->
  (forall i, (i < k)%nat -> exists e, chat (tick s + i) = Raise e) ->
  chat (tick s + k) = Ret text ->
  exists tr,
    Rag.generate_loop W self prompt todo a s
      = (Ret (Some text), mkState (tick s + S k) (trace s ++ tr))
    /\ schedule tr = retry_schedule a k.
Proof.
  induction k as [|k IH]; intros todo a s text Hk Hsum Hfail Hok;
    (destruct todo as [|todo]; [lia|]); simpl.
  - rewrite Nat.add_0_r in Hok.
    eexists. split.
    + erewrite bind_Ret by (apply attempt_success; eassumption).
      unfold ret. do 2 f_equal. lia.
    + reflexivity.
  - destruct (Hfail 0%nat ltac:(lia)) as [e He]. rewrite Nat.add_0_r in He.
    assert (Ha : a <> Rag.max_retries self - 1) by lia.
    destruct (attempt_failure_retry a s e He Ha) as [msg Hm].
    match type of Hm with _ = (_, ?s1) =>
      destruct (IH todo (a + 1) s1 text) as (tr & Hrun & Hsched) end;
      [lia | lia | | |].
    + intros i Hi. simpl. destruct (Hfail (S i) ltac:(lia)) as [e' He'].
      exists e'. now rewrite Nat.add_succ_r in He'.
    + simpl. now rewrite Nat.add_succ_r in Hok.
    + exists (Chat (Rag.model self) prompt :: Log ERROR msg :: Sleep (2 ^ a) :: tr).
      split.
      * erewrite bind_Ret by exact Hm. cbv beta iota. rewrite Hrun. simpl.
        rewrite <- app_assoc. simpl. do 2 f_equal. lia.
      * simpl. now rewrite Hsched.
Qed.

(** Every one of the remaining [todo + 1] attempts fails: the loop
    returns [None] after exactly that many calls, waiting between
    consecutive attempts only. *)
Lemma generate_loop_exhausted (todo : nat) :
  forall (a : Z) (s : State),
  a + Z.of_nat (S todo) = Rag.max_retries self ->
  (forall i, (i < S todo)%nat -> exists e, chat (tick s + i) = Raise e) ->
  exists tr,
    Rag.generate_loop W self prompt (S todo) a s
      = (Ret None, mkState (tick s + S todo) (trace s ++ tr))
    /\ schedule tr = retry_schedule a todo.
Proof.
  induction todo as [|todo IH]; intros a s Hsum Hfail;
    destruct (Hfail 0%nat ltac:(lia)) as [e He]; rewrite Nat.add_0_r in He.
  - assert (Ha : a = Rag.max_retries self - 1) by lia.
    destruct (attempt_failure_last a s e He Ha) as [msg Hm].
    eexists. split.
    + cbn [Rag.generate_loop]. erewrite bind_Ret by exact Hm.
      unfold ret. do 2 f_equal. lia.
    + reflexivity.
  - assert (Ha : a <> Rag.max_retries self - 1) by lia.
    destruct (attempt_failure_retry a s e He Ha) as [msg Hm].
    match type of Hm with _ = (_, ?s1) =>
      destruct (IH (a + 1) s1) as (tr & Hrun & Hsched) end; [lia | |].
    + intros i Hi. simpl. destruct (Hfail (S i) ltac:(lia)) as [e' He'].
      exists e'. now rewrite Nat.add_succ_r in He'.
    + exists (Chat (Rag.model self) prompt :: Log ERROR msg :: Sleep (2 ^ a) :: tr).
      split.
      * change (Rag.generate_loop W self prompt (S (S todo)) a s)
          with (bind (Rag.generate_attempt W self prompt a)
                  (fun r => match r with
                            | Return v => ret v
                            | Next => Rag.generate_loop W self prompt (S todo) (a + 1)
                            end) s).
        erewrite bind_Ret by exact Hm. cbv beta iota. rewrite Hrun.
        cbn [tick trace]. rewrite <- app_assoc. simpl. do 2 f_equal. lia.
      * simpl. now rewrite Hsched.
Qed.

(** [generate] when every attempt fails. *)
Lemma generate_gives_up (s : State) :
  (forall i, (i < Z.to_nat (Rag.max_retries self))%nat ->
             exists e, chat (tick s + i) = Raise e) ->
  exists tr,
    Rag.generate W self prompt s
      = (Ret None, mkState (tick s + Z.to_nat (Rag.max_retries self)) (trace s ++ tr))
    /\ schedule tr = match Z.to_nat (Rag.max_retries self) with
                     | O => []
                     | S m => retry_schedule 0 m
                     end.
Proof.
  intros Hfail. unfold Rag.generate.
  destruct (Z.to_nat (Rag.max_retries self)) as [|m] eqn:Hn.
  - exists []. simpl. unfold ret. rewrite Nat.add_0_r, app_nil_r.
    destruct s; auto.
  - apply generate_loop_exhausted; [lia | exact Hfail].
Qed.

End Generate.

Example backoff_three : backoff 0 3 = [1; 2; 4].
Proof. reflexivity. Qed.

(** C1.  [RAGSystem.generate] never calls the model more than
    [max_retries] times and never raises.  If its first [k] calls fail
    and call [k] (with [k < max_retries]) succeeds, it returns that
    call's text, having made [k + 1] calls and slept 1, 2, 4, ...
    ([2 ^ i] after failed attempt [i]) between consecutive attempts.
    If every call fails it gives up with its failure value [None] after
    exactly [max_retries] calls, having slept between consecutive
    attempts only. *)
Theorem generate_retry_backoff
  (W : World) (self : Rag.RAGSystem) (prompt : string) (s : State) :
  let n := Z.to_nat (Rag.max_retries self) in
  let chat := fun t => ollama_chat W t (Rag.model self) prompt in
  (exists v tr,
      Rag.generate W self prompt s
        = (Ret v, mkState (tick s + attempts tr) (trace s ++ tr))
      /\ (attempts tr <= n)%nat)
  /\ (forall (k : nat) (text : string),
        (k < n)%nat ->
        (forall i, (i < k)%nat -> exists e, chat (tick s + i)%nat = Raise e) ->
        chat (tick s + k)%nat = Ret text ->
        exists tr,
          Rag.generate W self prompt s
            = (Ret (Some text), mkState (tick s + S k) (trace s ++ tr))
          /\ schedule tr = retry_schedule 0 k
          /\ attempts tr = S k
          /\ sleeps tr = backoff 0 k)
  /\ ((forall i, (i < n)%nat -> exists e, chat (tick s + i)%nat = Raise e) ->
      exists tr,
        Rag.generate W self prompt s
          = (Ret None, mkState (tick s + n) (trace s ++ tr))
        /\ schedule tr = match n with O => [] | S m => retry_schedule 0 m end
        /\ attempts tr = n
        /\ sleeps tr = backoff 0 (n - 1)).
Proof.
  intros n chat. unfold Rag.generate. fold n. split; [|split].
  - apply generate_loop_bounded.
  - intros k text Hk Hfail Hok.
    destruct (generate_loop_success W self prompt k n 0 s text) as (tr & Hrun & Hs);
      auto; [unfold n; lia|].
    exists tr. repeat split; auto.
    + now rewrite <- schedule_attempts, Hs, retry_schedule_attempts.
    + now rewrite <- schedule_waits, Hs, retry_schedule_waits.
  - intros Hfail.
    destruct (generate_gives_up W self prompt s Hfail) as (tr & Hrun & Hs).
    exists tr. unfold Rag.generate in Hrun. fold n in Hrun, Hs.
    repeat split; auto.
    + rewrite <- schedule_attempts, Hs. destruct n; [reflexivity|].
      apply retry_schedule_attempts.
    + rewrite <- schedule_waits, Hs. destruct n as [|m]; [reflexivity|].
      rewrite retry_schedule_waits. now replace (S m - 1)%nat with m by lia.
Qed.

(** Two failures then a success, and three failures, with the default
    [max_retries = 3]. *)
Lemma generate_retry_backoff_witness :
  (exists tr,
      Rag.generate (Scenario.scripted (Scenario.fails_then 2 "answer") [])
        Rag.default_rag "q" Scenario.start
        = (Ret (Some "answer"), mkState 3 tr)
      /\ sleeps tr = [1; 2])
  /\ (exists tr,
        Rag.generate (Scenario.scripted Scenario.always_fails [])
          Rag.default_rag "q" Scenario.start
          = (Ret None, mkState 3 tr)
        /\ sleeps tr = [1; 2]).
Proof.
  split.
  - destruct (generate_retry_backoff
                (Scenario.scripted (Scenario.fails_then 2 "answer") [])
                Rag.default_rag "q" Scenario.start) as (_ & H & _).
    destruct (H 2%nat "answer") as (tr & Hrun & _ & _ & Hs).
    + simpl. lia.
    + intros i Hi. exists Scenario.boom.
      destruct i as [|[|i]]; [reflexivity | reflexivity | lia].
    + reflexivity.
    + exists tr. split; [exact Hrun | exact Hs].
  - destruct (generate_retry_backoff
                (Scenario.scripted Scenario.always_fails [])
                Rag.default_rag "q" Scenario.start) as (_ & _ & H).
    destruct H as (tr & Hrun & _ & _ & Hs).
    + intros i _. exists Scenario.boom. reflexivity.
    + exists tr. split; [exact Hrun | exact Hs].
Defined.

(** ** RAGSystem.query: every failure becomes a returned message *)

Section Query.

Variable W : World.
Variable self : Rag.RAGSystem.
Variables user_query search_method : string.

Lemma query_no_index (index_name : option string) (s : State) :
  truthy_opt truthy_str index_name = false ->
  Rag.query W self user_query search_method index_name s
    = (Ret (error_answer Rag.no_index_message),
       mkState (tick s) (trace s ++ [error_log Rag.no_index_message])).
Proof.
  intros H. unfold Rag.query, try_except.
  destruct index_name as [name|]; simpl in H; [rewrite H|]; reflexivity.
Qed.

Lemma query_search_error (name : string) (s : State) (e : exn) :
  truthy_str name = true ->
  dp_search W (tick s) user_query 3 search_method name = Raise e ->
  Rag.query W self user_query search_method (Some name) s
    = (Ret (error_answer (str_exn e)),
       mkState (S (tick s))
         (trace s ++ [Search user_query 3 search_method name; error_log (str_exn e)])).
Proof.
  intros Hn He. unfold Rag.query, try_except, bind, call, emit, ret.
  rewrite Hn, He. simpl. now rewrite <- app_assoc.
Qed.

Lemma query_no_docs (name : string) (s : State) :
  truthy_str name = true ->
  dp_search W (tick s) user_query 3 search_method name = Ret [] ->
  Rag.query W self user_query search_method (Some name) s
    = (Ret (Rag.no_docs_answer, blank),
       mkState (S (tick s))
         (trace s ++ [Search user_query 3 search_method name;
                      Log WARNING "No relevant documents found for the query."])).
Proof.
  intros Hn He. unfold Rag.query, try_except, bind, call, emit, ret.
  rewrite Hn, He. simpl. now rewrite <- app_assoc.
Qed.

Lemma query_model_error (name : string) (s : State) (docs : list string) (e : exn) :
  truthy_str name = true ->
  dp_search W (tick s) user_query 3 search_method name = Ret docs ->
  docs <> [] ->
  ollama_chat W (S (tick s)) (Rag.model self) (Rag.get_prompt user_query docs) = Raise e ->
  Rag.query W self user_query search_method (Some name) s
    = (Ret (error_answer (str_exn e)),
       mkState (S (S (tick s)))
         (trace s ++ [Search user_query 3 search_method name;
                      Chat (Rag.model self) (Rag.get_prompt user_query docs);
                      error_log (str_exn e)])).
Proof.
  intros Hn Hs Hd He. unfold Rag.query, try_except, bind, call, emit, ret.
  rewrite Hn, Hs. destruct docs as [|d docs]; [congruence|].
  cbn [truthy_list negb tick trace]. rewrite He. cbn [tick trace].
  now rewrite <- !app_assoc.
Qed.

Lemma query_answer (name : string) (s : State) (docs : list string) (answer : string) :
  truthy_str name = true ->
  dp_search W (tick s) user_query 3 search_method name = Ret docs ->
  docs <> [] ->
  ollama_chat W (S (tick s)) (Rag.model self) (Rag.get_prompt user_query docs) = Ret answer ->
  Rag.query W self user_query search_method (Some name) s
    = (Ret (answer, Rag.get_prompt user_query docs),
       mkState (S (S (tick s)))
         (trace s ++ [Search user_query 3 search_method name;
                      Chat (Rag.model self) (Rag.get_prompt user_query docs)])).
Proof.
  intros Hn Hs Hd He. unfold Rag.query, try_except, bind, call, emit, ret.
  rewrite Hn, Hs. destruct docs as [|d docs]; [congruence|].
  cbn [truthy_list negb tick trace]. rewrite He. cbn [tick trace].
  now rewrite <- !app_assoc.
Qed.

(** [query] always returns a pair. *)
Lemma query_returns (index_name : option string) (s : State) :
  exists answer prompt s',
    Rag.query W self user_query search_method index_name s = (Ret (answer, prompt), s').
Proof.
  destruct (truthy_opt truthy_str index_name) eqn:Hi.
  - destruct index_name as [name|]; [cbn [truthy_opt] in Hi|discriminate].
    destruct (dp_search W (tick s) user_query 3 search_method name) as [docs|e] eqn:Hs.
    + destruct docs as [|d docs].
      * do 3 eexists. now apply query_no_docs.
      * destruct (ollama_chat W (S (tick s)) (Rag.model self)
                    (Rag.get_prompt user_query (d :: docs))) as [a|e] eqn:Hc.
        -- do 3 eexists. eapply query_answer; eauto. discriminate.
        -- do 3 eexists.
           erewrite query_model_error by (eassumption || discriminate). reflexivity.
    + do 3 eexists. erewrite query_search_error by eassumption. reflexivity.
  - do 3 eexists. erewrite query_no_index by eassumption. reflexivity.
Qed.

End Query.

(** C9.  [RAGSystem.query] never raises: on every input it returns a
    pair.  A missing index name, a search error and a model error are
    each returned as the message [An error occurred: ...] with an empty
    prompt, and a search that finds nothing is returned as a fixed
    message with an empty prompt. *)
Theorem query_never_raises
  (W : World) (self : Rag.RAGSystem) (user_query search_method : string)
  (index_name : option string) (s : State) :
  let run := Rag.query W self user_query search_method index_name s in
  (exists answer prompt s', run = (Ret (answer, prompt), s'))
  /\ (truthy_opt truthy_str index_name = false ->
      fst run = Ret ("An error occurred: " ++ Rag.no_index_message, EmptyString))
  /\ (forall name e,
        index_name = Some name -> truthy_str name = true ->
        dp_search W (tick s) user_query 3 search_method name = Raise e ->
        fst run = Ret ("An error occurred: " ++ str_exn e, EmptyString))
  /\ (forall name docs e,
        index_name = Some name -> truthy_str name = true ->
        dp_search W (tick s) user_query 3 search_method name = Ret docs ->
        docs <> [] ->
        ollama_chat W (S (tick s)) (Rag.model self) (Rag.get_prompt user_query docs)
          = Raise e ->
        fst run = Ret ("An error occurred: " ++ str_exn e, EmptyString))
  /\ (forall name,
        index_name = Some name -> truthy_str name = true ->
        dp_search W (tick s) user_query 3 search_method name = Ret [] ->
        fst run = Ret ("I couldn't find any relevant information to answer your query.",
                       EmptyString)).
Proof.
  intros run. unfold run. repeat split.
  - apply query_returns.
  - intros H. now rewrite query_no_index.
  - intros name e -> Hn He. now erewrite query_search_error by eassumption.
  - intros name docs e -> Hn Hs Hd He.
    now erewrite query_model_error by eassumption.
  - intros name -> Hn Hs. now erewrite query_no_docs by eassumption.
Qed.

(** A search backend that is down, and an empty index name. *)
Lemma query_never_raises_witness :
  fst (Rag.query Scenario.search_down Rag.default_rag "How do bees show direction?"
         "hybrid" (Some "video_abc_all-minilm-l6-v2") Scenario.start)
    = Ret ("An error occurred: connection refused", EmptyString)
  /\ fst (Rag.query Scenario.idle Rag.default_rag "How do bees show direction?"
            "hybrid" (Some EmptyString) Scenario.start)
       = Ret ("An error occurred: No index name provided. Please select a video and ensure it has been processed.",
              EmptyString)
  /\ fst (Rag.query Scenario.idle Rag.default_rag "How do bees show direction?"
            "hybrid" (Some "video_abc_all-minilm-l6-v2") Scenario.start)
       = Ret ("I couldn't find any relevant information to answer your query.",
              EmptyString).
Proof.
  split; [|split].
  - destruct (query_never_raises Scenario.search_down Rag.default_rag
                "How do bees show direction?" "hybrid"
                (Some "video_abc_all-minilm-l6-v2") Scenario.start)
      as (_ & _ & H & _).
    apply (H "video_abc_all-minilm-l6-v2" Scenario.boom); reflexivity.
  - destruct (query_never_raises Scenario.idle Rag.default_rag
                "How do bees show direction?" "hybrid"
                (Some EmptyString) Scenario.start)
      as (_ & H & _).
    apply H; reflexivity.
  - destruct (query_never_raises Scenario.idle Rag.default_rag
                "How do bees show direction?" "hybrid"
                (Some "video_abc_all-minilm-l6-v2") Scenario.start)
      as (_ & _ & _ & _ & H).
    apply (H "video_abc_all-minilm-l6-v2"); reflexivity.
Defined.

(** C3, as stated, fails: with no index name, [query] does not fail; it
    returns a pair whose first component is a message. *)
Lemma query_missing_index_does_not_fail :
  fst (Rag.query Scenario.idle Rag.default_rag "How do bees show direction?"
         "hybrid" None Scenario.start)
    = Ret ("An error occurred: No index name provided. Please select a video and ensure it has been processed.",
           EmptyString)
  /\ ~ (exists e,
          fst (Rag.query Scenario.idle Rag.default_rag "How do bees show direction?"
                 "hybrid" None Scenario.start) = Raise e).
Proof.
  split; [reflexivity|]. intros [e He]. discriminate He.
Qed.

(** C3, amended.  When the index name is missing ([None] or empty),
    [query] does not fail and does not search: it logs the error and
    returns the message [An error occurred: No index name provided. ...]
    with an empty prompt.  A search that finds no passage returns the
    fixed message [I couldn't find any relevant information ...] with
    an empty prompt.  Both are ordinary return values; they differ in
    their message text only. *)
Theorem query_missing_index_is_a_message
  (W : World) (self : Rag.RAGSystem) (user_query search_method : string) (s : State) :
  (forall index_name,
      truthy_opt truthy_str index_name = false ->
      Rag.query W self user_query search_method index_name s
        = (Ret ("An error occurred: " ++ Rag.no_index_message, EmptyString),
           mkState (tick s)
             (trace s ++ [Log ERROR ("An error occurred in the RAG system: "
                                     ++ Rag.no_index_message)])))
  /\ (forall name,
        truthy_str name = true ->
        dp_search W (tick s) user_query 3 search_method name = Ret [] ->
        Rag.query W self user_query search_method (Some name) s
          = (Ret (Rag.no_docs_answer, EmptyString),
             mkState (S (tick s))
               (trace s ++ [Search user_query 3 search_method name;
                            Log WARNING "No relevant documents found for the query."])))
  /\ "An error occurred: " ++ Rag.no_index_message <> Rag.no_docs_answer.
Proof.
  split; [|split].
  - intros index_name H. now apply query_no_index.
  - intros name Hn Hs. now apply query_no_docs.
  - discriminate.
Qed.

Lemma query_missing_index_is_a_message_witness :
  Rag.query Scenario.idle Rag.default_rag "How do bees show direction?" "hybrid"
    None Scenario.start
  = (Ret ("An error occurred: No index name provided. Please select a video and ensure it has been processed.",
          EmptyString),
     mkState 0
       [Log ERROR "An error occurred in the RAG system: No index name provided. Please select a video and ensure it has been processed."]).
Proof.
  destruct (query_missing_index_is_a_message Scenario.idle Rag.default_rag
              "How do bees show direction?" "hybrid" Scenario.start) as (H & _).
  apply (H None). reflexivity.
Defined.

(** ** Query rewriting *)

Section Rewriting.

Variable W : World.
Variable self : Rewriter.QueryRewriter.

Lemma rewriter_generate_ok (prompt text : string) (s : State) :
  ollama_chat W (tick s) (Rewriter.model self) prompt = Ret text ->
  Rewriter.generate W self prompt s
    = (Ret text, mkState (S (tick s)) (trace s ++ [Chat (Rewriter.model self) prompt])).
Proof.
  intros H. unfold Rewriter.generate, try_except, call. now rewrite H.
Qed.

Lemma rewriter_generate_error (prompt : string) (e : exn) (s : State) :
  ollama_chat W (tick s) (Rewriter.model self) prompt = Raise e ->
  Rewriter.generate W self prompt s
    = (Ret ("Error: " ++ str_exn e),
       mkState (S (tick s))
         (trace s ++ [Chat (Rewriter.model self) prompt;
                      Log ERROR ("Error generating response: " ++ str_exn e)])).
Proof.
  intros H. unfold Rewriter.generate, try_except, call, bind, emit, ret.
  rewrite H. simpl. now rewrite <- app_assoc.
Qed.

(** [generate] always returns a text. *)
Lemma rewriter_generate_returns (prompt : string) (s : State) :
  exists response s',
    Rewriter.generate W self prompt s = (Ret response, s')
    /\ tick s' = S (tick s)
    /\ exists tr, trace s' = (trace s ++ tr)%list.
Proof.
  destruct (ollama_chat W (tick s) (Rewriter.model self) prompt) as [text|e] eqn:H.
  - do 2 eexists. split; [apply rewriter_generate_ok; eassumption|]. simpl. eauto.
  - do 2 eexists. split; [apply rewriter_generate_error; eassumption|]. simpl. eauto.
Qed.

Lemma startswith_error_prefix (msg : string) :
  startswith ("Error: " ++ msg) "Error:" = true.
Proof. reflexivity. Qed.

(** The two branches of [rewrite_cot] and of [rewrite_react], decided
    by the text [generate] returned. *)
Lemma rewrite_cot_branches (query response : string) (s s1 : State) :
  Rewriter.generate W self (Rewriter.cot_prompt query) s = (Ret response, s1) ->
  Rewriter.rewrite_cot W self query s =
    if startswith response "Error:" then
      (Ret (query, Rewriter.cot_prompt query),
       mkState (tick s1)
         (trace s1 ++ [Log ERROR ("Error in CoT rewriting: " ++ response)]))
    else (Ret (response, Rewriter.cot_prompt query), s1).
Proof.
  intros H. unfold Rewriter.rewrite_cot. cbv zeta.
  erewrite bind_Ret by exact H.
  destruct (startswith response "Error:"); reflexivity.
Qed.

Lemma rewrite_react_branches (query response : string) (s s1 : State) :
  Rewriter.generate W self (Rewriter.react_prompt query) s = (Ret response, s1) ->
  Rewriter.rewrite_react W self query s =
    if startswith response "Error:" then
      (Ret (query, Rewriter.react_prompt query),
       mkState (tick s1)
         (trace s1 ++ [Log ERROR ("Error in ReAct rewriting: " ++ response)]))
    else (Ret (response, Rewriter.react_prompt query), s1).
Proof.
  intros H. unfold Rewriter.rewrite_react. cbv zeta.
  erewrite bind_Ret by exact H.
  destruct (startswith response "Error:"); reflexivity.
Qed.

End Rewriting.

(** [RAGSystem.rewrite_cot] and [rewrite_react] when [generate] gives
    up. *)
Lemma rag_rewrite_gives_up
  (W : World) (self : Rag.RAGSystem) (prompt query : string) (s : State) :
  (forall i, (i < Z.to_nat (Rag.max_retries self))%nat ->
             exists e, ollama_chat W (tick s + i) (Rag.model self) prompt = Raise e) ->
  fst (Rag.rewrite_with W self prompt query s) = Ret (query, prompt).
Proof.
  intros Hfail.
  destruct (generate_gives_up W self prompt s Hfail) as (tr & Hrun & _).
  unfold Rag.rewrite_with. now erewrite bind_Ret by exact Hrun.
Qed.

(** C4.  When the underlying generation fails, rewriting returns the
    original query together with the prompt that was attempted, and
    does not raise.  This holds for both strategies of [QueryRewriter]
    (the model call raises) and for both strategies of [RAGSystem]
    (every attempt of [generate] fails). *)
Theorem rewrite_falls_back_to_original (W : World) (query : string) (s : State) :
  (forall rw e,
      ollama_chat W (tick s) (Rewriter.model rw) (Rewriter.cot_prompt query) = Raise e ->
      fst (Rewriter.rewrite_cot W rw query s) = Ret (query, Rewriter.cot_prompt query))
  /\ (forall rw e,
        ollama_chat W (tick s) (Rewriter.model rw) (Rewriter.react_prompt query) = Raise e ->
        fst (Rewriter.rewrite_react W rw query s) = Ret (query, Rewriter.react_prompt query))
  /\ (forall rag,
        (forall i, (i < Z.to_nat (Rag.max_retries rag))%nat ->
                   exists e, ollama_chat W (tick s + i) (Rag.model rag)
                               (Rag.cot_prompt query) = Raise e) ->
        fst (Rag.rewrite_cot W rag query s) = Ret (query, Rag.cot_prompt query))
  /\ (forall rag,
        (forall i, (i < Z.to_nat (Rag.max_retries rag))%nat ->
                   exists e, ollama_chat W (tick s + i) (Rag.model rag)
                               (Rag.react_prompt query) = Raise e) ->
        fst (Rag.rewrite_react W rag query s) = Ret (query, Rag.react_prompt query)).
Proof.
  repeat split.
  - intros rw e H.
    erewrite rewrite_cot_branches by (apply rewriter_generate_error; exact H).
    now rewrite startswith_error_prefix.
  - intros rw e H.
    erewrite rewrite_react_branches by (apply rewriter_generate_error; exact H).
    now rewrite startswith_error_prefix.
  - intros rag H. now apply rag_rewrite_gives_up.
  - intros rag H. now apply rag_rewrite_gives_up.
Qed.

(** An unreachable model: both rewriters hand back the query. *)
Lemma rewrite_falls_back_to_original_witness :
  fst (Rewriter.rewrite_cot Scenario.model_down Rewriter.default_rewriter
         "how do bees show direction" Scenario.start)
    = Ret ("how do bees show direction",
           Rewriter.cot_prompt "how do bees show direction")
  /\ fst (Rag.rewrite_react Scenario.model_down Rag.default_rag
            "how do bees show direction" Scenario.start)
       = Ret ("how do bees show direction",
              Rag.react_prompt "how do bees show direction").
Proof.
  destruct (rewrite_falls_back_to_original Scenario.model_down
              "how do bees show direction" Scenario.start) as (Hc & _ & _ & Hr).
  split.
  - apply (Hc Rewriter.default_rewriter Scenario.boom). reflexivity.
  - apply (Hr Rag.default_rag). intros i _. exists Scenario.boom. reflexivity.
Defined.

(** C10.  [QueryRewriter] tells success from failure by the text alone.
    [generate] makes one model call: it returns the reply as it is, and
    turns an exception of the call into the text [Error: ] followed by
    its message.  [rewrite_cot] and [rewrite_react] therefore return
    the model's reply when it does not start with [Error:], and take
    the fallback branch (log an error, return the original query) when
    the reply starts with [Error:] as well as when the call raised.  So
    a successful completion whose text begins with [Error:] is
    discarded in favour of the original query: the last part shows one
    such completion, for the question [what does error 404 mean]. *)
Theorem rewriter_classifies_by_text
  (W : World) (self : Rewriter.QueryRewriter) (query : string) (s : State) :
  let chat prompt := Chat (Rewriter.model self) prompt in
  let reply prompt := ollama_chat W (tick s) (Rewriter.model self) prompt in
  let after tr := mkState (S (tick s)) (trace s ++ tr) in
  (forall prompt text,
      reply prompt = Ret text ->
      Rewriter.generate W self prompt s = (Ret text, after [chat prompt]))
  /\ (forall prompt e,
        reply prompt = Raise e ->
        Rewriter.generate W self prompt s
          = (Ret ("Error: " ++ str_exn e),
             after [chat prompt; Log ERROR ("Error generating response: " ++ str_exn e)]))
  /\ (forall text,
        reply (Rewriter.cot_prompt query) = Ret text ->
        Rewriter.rewrite_cot W self query s =
          if startswith text "Error:" then
            (Ret (query, Rewriter.cot_prompt query),
             after [chat (Rewriter.cot_prompt query);
                    Log ERROR ("Error in CoT rewriting: " ++ text)])
          else
            (Ret (text, Rewriter.cot_prompt query),
             after [chat (Rewriter.cot_prompt query)]))
  /\ (forall e,
        reply (Rewriter.cot_prompt query) = Raise e ->
        Rewriter.rewrite_cot W self query s =
          (Ret (query, Rewriter.cot_prompt query),
           after [chat (Rewriter.cot_prompt query);
                  Log ERROR ("Error generating response: " ++ str_exn e);
                  Log ERROR ("Error in CoT rewriting: Error: " ++ str_exn e)]))
  /\ (forall text,
        reply (Rewriter.react_prompt query) = Ret text ->
        Rewriter.rewrite_react W self query s =
          if startswith text "Error:" then
            (Ret (query, Rewriter.react_prompt query),
             after [chat (Rewriter.react_prompt query);
                    Log ERROR ("Error in ReAct rewriting: " ++ text)])
          else
            (Ret (text, Rewriter.react_prompt query),
             after [chat (Rewriter.react_prompt query)]))
  /\ (forall e,
        reply (Rewriter.react_prompt query) = Raise e ->
        Rewriter.rewrite_react W self query s =
          (Ret (query, Rewriter.react_prompt query),
           after [chat (Rewriter.react_prompt query);
                  Log ERROR ("Error generating response: " ++ str_exn e);
                  Log ERROR ("Error in ReAct rewriting: Error: " ++ str_exn e)]))
  /\ (let question := "what does error 404 mean" in
      ollama_chat Scenario.error_like 0 (Rewriter.model Rewriter.default_rewriter)
        (Rewriter.cot_prompt question) = Ret Scenario.error_like_text
      /\ ollama_chat Scenario.error_like 0 (Rewriter.model Rewriter.default_rewriter)
           (Rewriter.react_prompt question) = Ret Scenario.error_like_text
      /\ startswith Scenario.error_like_text "Error:" = true
      /\ Scenario.error_like_text <> question
      /\ fst (Rewriter.rewrite_cot Scenario.error_like Rewriter.default_rewriter
                question Scenario.start)
           = Ret (question, Rewriter.cot_prompt question)
      /\ fst (Rewriter.rewrite_react Scenario.error_like Rewriter.default_rewriter
                question Scenario.start)
           = Ret (question, Rewriter.react_prompt question)).
Proof.
  intros chat reply after. subst chat reply after. cbv beta.
  split; [|split; [|split; [|split; [|split; [|split]]]]].
  - intros prompt text H. now apply rewriter_generate_ok.
  - intros prompt e H. now apply rewriter_generate_error.
  - intros text H.
    erewrite rewrite_cot_branches by (apply rewriter_generate_ok; exact H).
    destruct (startswith text "Error:"); cbn [tick trace]; [|reflexivity].
    now rewrite <- app_assoc.
  - intros e H.
    erewrite rewrite_cot_branches by (apply rewriter_generate_error; exact H).
    rewrite startswith_error_prefix. cbn [tick trace]. now rewrite <- app_assoc.
  - intros text H.
    erewrite rewrite_react_branches by (apply rewriter_generate_ok; exact H).
    destruct (startswith text "Error:"); cbn [tick trace]; [|reflexivity].
    now rewrite <- app_assoc.
  - intros e H.
    erewrite rewrite_react_branches by (apply rewriter_generate_error; exact H).
    rewrite startswith_error_prefix. cbn [tick trace]. now rewrite <- app_assoc.
  - cbv zeta. repeat split; try reflexivity. discriminate.
Qed.

(** A reply that reads like an error report is thrown away, and an
    unreachable model is reported as text. *)
Lemma rewriter_classifies_by_text_witness :
  fst (Rewriter.rewrite_cot Scenario.error_like Rewriter.default_rewriter
         "how do bees show direction" Scenario.start)
    = Ret ("how do bees show direction",
           Rewriter.cot_prompt "how do bees show direction")
  /\ fst (Rewriter.generate Scenario.model_down Rewriter.default_rewriter
            "Rewrite this" Scenario.start)
       = Ret "Error: connection refused".
Proof.
  split.
  - destruct (rewriter_classifies_by_text Scenario.error_like Rewriter.default_rewriter
                "how do bees show direction" Scenario.start) as (_ & _ & H & _).
    now rewrite (H Scenario.error_like_text eq_refl).
  - destruct (rewriter_classifies_by_text Scenario.model_down Rewriter.default_rewriter
                "how do bees show direction" Scenario.start) as (_ & H & _).
    now rewrite (H "Rewrite this" Scenario.boom eq_refl).
Defined.

(** ** Indexing *)

(** C2.  When the registry already holds an index for the pair
    (video, embedding model), [process_single_video] returns that
    handle unchanged.  Its only effects are the registry lookup and one
    log line: no transcript is fetched, nothing is chunked or built,
    and no video, model or index record is written. *)
Theorem process_single_video_reuses_index
  (W : World) (video_id embedding_model name : string) (s : State) :
  db_get_index W (tick s) video_id embedding_model = Ret (Some name) ->
  truthy_str name = true ->
  exists tr,
    Main.process_single_video W video_id embedding_model s
      = (Ret (Some name), mkState (S (tick s)) (trace s ++ tr))
    /\ tr = [GetIndex video_id embedding_model;
             Log INFO ("Video " ++ video_id ++ " has already been processed with "
                       ++ embedding_model ++ ". Using existing index: " ++ name)]
    /\ existsb is_rebuild tr = false.
Proof.
  intros Hget Hname. eexists. split; [|split; [reflexivity|reflexivity]].
  unfold Main.process_single_video, bind, call, emit, ret.
  rewrite Hget. cbn [truthy_opt tick trace]. rewrite Hname.
  cbn [Main.str_opt tick trace]. now rewrite <- app_assoc.
Qed.

Lemma process_single_video_reuses_index_witness :
  exists tr,
    Main.process_single_video (Scenario.indexed Scenario.idle) "abc" "all-MiniLM-L6-v2"
      Scenario.start
      = (Ret (Some "video_abc_all-minilm-l6-v2"), mkState 1 tr)
    /\ existsb is_rebuild tr = false.
Proof.
  destruct (process_single_video_reuses_index (Scenario.indexed Scenario.idle)
              "abc" "all-MiniLM-L6-v2" Scenario.abc_index Scenario.start)
    as (tr & Hrun & _ & Hno); [reflexivity | reflexivity |].
  exists tr. split; [exact Hrun | exact Hno].
Defined.

(** ** Evaluation: the sample *)

Lemma number_rows_In (rows : list gt_row) :
  forall (k i : nat) (r : gt_row),
  In (i, r) (Scenario.number_rows k rows) ->
  (k <= i)%nat /\ nth_error rows (i - k) = Some r.
Proof.
  induction rows as [|x rows IH]; intros k i r Hin; simpl in Hin; [tauto|].
  destruct Hin as [Heq|Hin].
  - inversion Heq; subst. split; [lia|]. now rewrite Nat.sub_diag.
  - destruct (IH (S k) i r Hin) as [Hle Hnth]. split; [lia|].
    replace (i - k)%nat with (S (i - S k)) by lia. exact Hnth.
Qed.

Lemma number_rows_positions (rows : list gt_row) :
  forall k, map fst (Scenario.number_rows k rows) = seq k (List.length rows).
Proof.
  induction rows as [|x rows IH]; intros k; simpl; [reflexivity|].
  now rewrite IH.
Qed.

Lemma number_rows_length (rows : list gt_row) (k : nat) :
  List.length (Scenario.number_rows k rows) = List.length rows.
Proof.
  rewrite <- (length_map fst), number_rows_positions. apply length_seq.
Qed.

Lemma In_firstn {A : Type} (x : A) (l : list A) :
  forall n, In x (firstn n l) -> In x l.
Proof.
  induction l as [|y l IH]; intros n Hin.
  - now rewrite firstn_nil in Hin.
  - destruct n as [|n]; simpl in Hin; [tauto|].
    destruct Hin as [->|Hin]; [now left | right; eauto].
Qed.

Lemma NoDup_firstn {A : Type} (n : nat) (l : list A) :
  NoDup l -> NoDup (firstn n l).
Proof.
  revert n; induction l as [|x l IH]; intros n Hnd.
  - rewrite firstn_nil. constructor.
  - destruct n as [|n]; simpl; [constructor|].
    inversion Hnd as [|? ? Hx Hl]; subst. constructor.
    + intros Hin. apply Hx. eapply In_firstn. exact Hin.
    + now apply IH.
Qed.

(** The scripted sampler meets the contract of [DataFrame.sample]. *)
Lemma head_sample_contract (W : World) :
  df_sample W = Scenario.head_sample -> samples_without_replacement W.
Proof.
  intros HW rows n seed [H0 Hn]. rewrite HW. unfold Scenario.head_sample.
  destruct (n <? 0) eqn:Hneg; [apply Z.ltb_lt in Hneg; lia|].
  destruct (Z.of_nat (List.length rows) <? n) eqn:Hbig; [apply Z.ltb_lt in Hbig; lia|].
  eexists. split; [reflexivity|]. split; [|split].
  - rewrite length_firstn, number_rows_length. lia.
  - rewrite <- firstn_map. apply NoDup_firstn.
    rewrite number_rows_positions. apply seq_NoDup.
  - intros i r Hin. apply In_firstn in Hin.
    destruct (number_rows_In rows 0 i r Hin) as [_ Hnth].
    now rewrite Nat.sub_0_r in Hnth.
Qed.

(** C5.  For every ground-truth set [G] and requested size [n >= 0],
    with a sampler that meets the contract of [DataFrame.sample], the
    evaluation run draws [min(n, |G|)] rows of [G] at pairwise distinct
    positions (without replacement), and the draw depends on [G] and
    [n] only (the seed is the constant 1): every run of [evaluate_rag]
    that reads [G], from whatever state, iterates over this same
    sample. *)
Theorem evaluation_sample_reproducible (W : World) (G : list gt_row) (n : Z) :
  samples_without_replacement W ->
  0 <= n ->
  exists sample,
    Main.draw_sample W G n = Ret sample
    /\ Main.draw_sample W G n = df_sample W G (Z.min n (Z.of_nat (List.length G))) 1
    /\ Z.of_nat (List.length sample) = Z.min n (Z.of_nat (List.length G))
    /\ NoDup (map fst sample)
    /\ (forall i r, In (i, r) sample -> nth_error G i = Some r)
    /\ (forall rag s,
          read_csv W (tick s) Main.gt_path = Ret G ->
          Main.evaluate_rag W rag n s
            = Main.evaluate_sample W rag sample
                (mkState (S (tick s)) (trace s ++ [ReadCsv Main.gt_path]))).
Proof.
  intros Hsample Hn.
  destruct (Hsample G (Z.min n (Z.of_nat (List.length G))) 1)
    as (sample & Hdraw & Hlen & Hnd & Hin); [lia|].
  exists sample. repeat split; auto.
  - rewrite Hlen. lia.
  - intros rag s Hread.
    unfold Main.evaluate_rag, Main.load_ground_truth, bind, try_except, call, ret, lift.
    rewrite Hread. unfold Main.draw_sample in Hdraw. unfold Main.draw_sample.
    now rewrite Hdraw.
Qed.

(** Three ground-truth rows, two requested. *)
Lemma evaluation_sample_reproducible_witness :
  exists sample,
    Main.draw_sample Scenario.idle
      [("abc", "q1"); ("abc", "q2"); ("xyz", "q3")] 2 = Ret sample
    /\ Z.of_nat (List.length sample) = 2
    /\ NoDup (map fst sample).
Proof.
  destruct (evaluation_sample_reproducible Scenario.idle
              [("abc", "q1"); ("abc", "q2"); ("xyz", "q3")] 2)
    as (sample & Hdraw & _ & Hlen & Hnd & _).
  - apply head_sample_contract. reflexivity.
  - lia.
  - exists sample. split; [exact Hdraw|]. split; [exact Hlen | exact Hnd].
Defined.

(** ** Evaluation: what the loop appends and stores *)

Section Inversion.

Context {A B : Type}.

Lemma bind_inv_Ret (m : M A) (k : A -> M B) (s s' : State) (v : B) :
  bind m k s = (Ret v, s') ->
  exists a s1, m s = (Ret a, s1) /\ k a s1 = (Ret v, s').
Proof.
  unfold bind. destruct (m s) as [[a|e] s1]; intros H.
  - now exists a, s1.
  - discriminate.
Qed.

Lemma try_inv_Ret (m : M A) (h : exn -> M A) (s s' : State) (v : A) :
  try_except m h s = (Ret v, s') ->
  m s = (Ret v, s') \/ exists e s1, m s = (Raise e, s1) /\ h e s1 = (Ret v, s').
Proof.
  unfold try_except. destruct (m s) as [[a|e] s1]; intros H.
  - left. exact H.
  - right. now exists e, s1.
Qed.

Lemma lift_inv_Ret (o : outcome A) (s s' : State) (v : A) :
  lift o s = (Ret v, s') -> o = Ret v /\ s' = s.
Proof. unfold lift. intros H. inversion H. auto. Qed.

End Inversion.

Lemma persisted_app (a b : list event) :
  persisted (a ++ b) = (persisted a ++ persisted b)%list.
Proof.
  induction a as [|ev a IH]; simpl; [reflexivity|].
  destruct ev; simpl; rewrite ?IH; auto using app_assoc.
Qed.

Section StoresNothing.

Context {A B : Type}.

Lemma stores_nothing_ret (v : A) : stores_nothing (ret v).
Proof. intros s r s' H. now inversion H. Qed.

Lemma stores_nothing_raise (e : exn) : stores_nothing (@raise A e).
Proof. intros s r s' H. now inversion H. Qed.

Lemma stores_nothing_lift (o : outcome A) : stores_nothing (lift o).
Proof. intros s r s' H. now inversion H. Qed.

Lemma stores_nothing_emit (ev : event) :
  is_store ev = false -> stores_nothing (emit ev).
Proof.
  intros Hev s r s' H. inversion H; subst. simpl. rewrite persisted_app.
  destruct ev; try discriminate; simpl; now rewrite app_nil_r.
Qed.

Lemma stores_nothing_call (ev : event) (reply : nat -> outcome A) :
  is_store ev = false -> stores_nothing (call ev reply).
Proof.
  intros Hev s r s' H. inversion H; subst. simpl. rewrite persisted_app.
  destruct ev; try discriminate; simpl; now rewrite app_nil_r.
Qed.

Lemma stores_nothing_bind (m : M A) (k : A -> M B) :
  stores_nothing m -> (forall a, stores_nothing (k a)) -> stores_nothing (bind m k).
Proof.
  intros Hm Hk s r s' H. unfold bind in H.
  destruct (m s) as [[a|e] s1] eqn:Hms.
  - rewrite (Hk a _ _ _ H). exact (Hm _ _ _ Hms).
  - inversion H; subst. exact (Hm _ _ _ Hms).
Qed.

Lemma stores_nothing_try (m : M A) (h : exn -> M A) :
  stores_nothing m -> (forall e, stores_nothing (h e)) -> stores_nothing (try_except m h).
Proof.
  intros Hm Hh s r s' H. unfold try_except in H.
  destruct (m s) as [[a|e] s1] eqn:Hms.
  - inversion H; subst. exact (Hm _ _ _ Hms).
  - rewrite (Hh e _ _ _ H). exact (Hm _ _ _ Hms).
Qed.

End StoresNothing.

Create HintDb quiet discriminated.

#[local] Hint Resolve stores_nothing_ret stores_nothing_raise stores_nothing_lift
  stores_nothing_bind stores_nothing_try : quiet.
#[local] Hint Extern 1 (stores_nothing (emit _)) =>
  (apply stores_nothing_emit; reflexivity) : quiet.
#[local] Hint Extern 1 (stores_nothing (call _ _)) =>
  (apply stores_nothing_call; reflexivity) : quiet.
#[local] Hint Extern 2 (stores_nothing (if ?c then _ else _)) => destruct c : quiet.
#[local] Hint Extern 2 (stores_nothing (match ?c with Some _ => _ | None => _ end)) =>
  destruct c : quiet.

Ltac quiet := intros; repeat (progress (auto 6 with quiet); intros).

Lemma query_stores_nothing
  (W : World) (self : Rag.RAGSystem) (q m : string) (index_name : option string) :
  stores_nothing (Rag.query W self q m index_name).
Proof.
  unfold Rag.query. apply stores_nothing_try.
  - destruct index_name as [name|]; [|quiet].
    destruct (truthy_str name); [|quiet].
    apply stores_nothing_bind; [quiet|]. intros docs.
    destruct (negb (truthy_list docs)); quiet.
  - quiet.
Qed.

Lemma judge_stores_nothing (W : World) (video_id question answer : string) :
  stores_nothing (Main.judge W video_id question answer).
Proof. unfold Main.judge. quiet. Qed.

Lemma evaluate_item_stores_nothing
  (W : World) (rag : Rag.RAGSystem) (i total : nat) (row : gt_row)
  (evaluations : list eval_record) :
  stores_nothing (Main.evaluate_item W rag i total row evaluations).
Proof.
  unfold Main.evaluate_item. cbv zeta.
  apply stores_nothing_bind; [quiet|]. intros index_name.
  destruct (negb (truthy_opt truthy_str index_name)); [quiet|].
  apply stores_nothing_bind.
  - apply stores_nothing_try.
    + apply stores_nothing_bind; [apply query_stores_nothing | quiet].
    + intros e. destruct (is_ValueError e); quiet.
  - intros [answer|]; [|quiet].
    apply stores_nothing_bind; [|quiet].
    apply stores_nothing_try; [|quiet].
    apply stores_nothing_bind; [apply judge_stores_nothing | quiet].
Qed.

Lemma evaluate_loop_stores_nothing
  (W : World) (rag : Rag.RAGSystem) (total : nat) (sample : list (nat * gt_row)) :
  forall (i : nat) (evaluations : list eval_record),
  stores_nothing (Main.evaluate_loop W rag i total sample evaluations).
Proof.
  induction sample as [|[pos row] sample IH]; intros i evaluations; simpl.
  - apply stores_nothing_ret.
  - apply stores_nothing_bind; [apply evaluate_item_stores_nothing|].
    intros evaluations'. apply IH.
Qed.

Section Clock.

Context {A B : Type}.

Lemma advances_ret (v : A) : advances (ret v).
Proof. intros s r s' H. inversion H; subst. lia. Qed.

Lemma advances_raise (e : exn) : advances (@raise A e).
Proof. intros s r s' H. inversion H; subst. lia. Qed.

Lemma advances_lift (o : outcome A) : advances (lift o).
Proof. intros s r s' H. inversion H; subst. lia. Qed.

Lemma advances_emit (ev : event) : advances (emit ev).
Proof. intros s r s' H. inversion H; subst. simpl. lia. Qed.

Lemma advances_call (ev : event) (reply : nat -> outcome A) : advances (call ev reply).
Proof. intros s r s' H. inversion H; subst. simpl. lia. Qed.

Lemma advances_bind (m : M A) (k : A -> M B) :
  advances m -> (forall a, advances (k a)) -> advances (bind m k).
Proof.
  intros Hm Hk s r s' H. unfold bind in H.
  destruct (m s) as [[a|e] s1] eqn:Hms.
  - apply Hm in Hms. apply Hk in H. lia.
  - inversion H; subst. exact (Hm _ _ _ Hms).
Qed.

Lemma advances_try (m : M A) (h : exn -> M A) :
  advances m -> (forall e, advances (h e)) -> advances (try_except m h).
Proof.
  intros Hm Hh s r s' H. unfold try_except in H.
  destruct (m s) as [[a|e] s1] eqn:Hms.
  - inversion H; subst. exact (Hm _ _ _ Hms).
  - apply Hm in Hms. apply Hh in H. lia.
Qed.

End Clock.

Create HintDb clock discriminated.

#[local] Hint Resolve advances_ret advances_raise advances_lift advances_emit
  advances_call advances_bind advances_try : clock.
#[local] Hint Extern 2 (advances (if ?c then _ else _)) => destruct c : clock.
#[local] Hint Extern 2 (advances (match ?c with Some _ => _ | None => _ end)) =>
  destruct c : clock.

Ltac clock := intros; repeat (progress (auto 6 with clock); intros).

Lemma query_advances
  (W : World) (self : Rag.RAGSystem) (q m : string) (index_name : option string) :
  advances (Rag.query W self q m index_name).
Proof.
  unfold Rag.query. apply advances_try.
  - destruct index_name as [name|]; [|clock].
    destruct (truthy_str name); [|clock].
    apply advances_bind; [clock|]. intros docs.
    destruct (negb (truthy_list docs)); clock.
  - clock.
Qed.

Lemma label_from_judge_widen (W : World) (lo hi lo' hi' : nat) (x : eval_record) :
  (lo' <= lo)%nat -> (hi <= hi')%nat ->
  label_from_judge W lo hi x -> label_from_judge W lo' hi' x.
Proof.
  intros Hlo Hhi (t & text & items & Ht & H). exists t, text, items.
  split; [lia | exact H].
Qed.

Section Labels.

Variable W : World.
Variable rag : Rag.RAGSystem.

(** A record built by the judge step comes from the reply to the call
    made at the start of that step. *)
Lemma judge_label (video_id question answer : string) (s s' : State) (x : eval_record) :
  Main.judge W video_id question answer s = (Ret x, s') ->
  label_from_judge W (tick s) (tick s') x
  /\ ev_video_id x = video_id /\ ev_question x = question /\ ev_answer x = answer.
Proof.
  unfold Main.judge. cbv zeta. intros H.
  apply bind_inv_Ret in H as (content & s1 & Hchat & H).
  unfold call in Hchat. inversion Hchat as [[Hreply Hs1]]. clear Hchat.
  apply bind_inv_Ret in H as (parsed & s2 & Hparse & H).
  apply lift_inv_Ret in Hparse as [Hparse ->].
  apply bind_inv_Ret in H as (relevance & s3 & Hrel & H).
  apply lift_inv_Ret in Hrel as [Hrel ->].
  apply bind_inv_Ret in H as (explanation & s4 & Hexp & H).
  apply lift_inv_Ret in Hexp as [_ ->].
  inversion H; subst x s'. subst s1. cbn [tick ev_video_id ev_question ev_answer].
  repeat split.
  destruct parsed; try discriminate.
  exists (tick s), content, items. cbn [ev_question ev_answer ev_relevance].
  split; [lia|]. split; [exact Hreply|]. split; [exact Hparse|].
  simpl in Hrel. now inversion Hrel.
Qed.

Lemma evaluate_item_advances (i total : nat) (row : gt_row)
  (evaluations : list eval_record) :
  advances (Main.evaluate_item W rag i total row evaluations).
Proof.
  unfold Main.evaluate_item. cbv zeta.
  apply advances_bind; [clock|]. intros index_name.
  destruct (negb (truthy_opt truthy_str index_name)); [clock|].
  apply advances_bind.
  - apply advances_try.
    + apply advances_bind; [apply query_advances | clock].
    + intros e. destruct (is_ValueError e); clock.
  - intros [answer|]; [|clock].
    apply advances_bind; [|clock].
    apply advances_try; [|clock].
    unfold Main.judge. cbv zeta. clock.
Qed.

Lemma evaluate_item_labels (lo i total : nat) (row : gt_row)
  (evaluations evaluations' : list eval_record) (s s' : State) :
  (lo <= tick s)%nat ->
  Forall (label_from_judge W lo (tick s)) evaluations ->
  Main.evaluate_item W rag i total row evaluations s = (Ret evaluations', s') ->
  (tick s <= tick s')%nat
  /\ Forall (label_from_judge W lo (tick s')) evaluations'.
Proof.
  intros Hlo HP H.
  assert (Hmono : (tick s <= tick s')%nat) by exact (evaluate_item_advances _ _ _ _ _ _ _ H).
  split; [exact Hmono|].
  assert (HP' : Forall (label_from_judge W lo (tick s')) evaluations).
  { eapply Forall_impl; [|exact HP]. intros x. apply label_from_judge_widen; lia. }
  unfold Main.evaluate_item in H. cbv zeta in H.
  apply bind_inv_Ret in H as (index_name & s1 & Hidx & H).
  apply advances_call in Hidx.
  destruct (negb (truthy_opt truthy_str index_name)).
  - inversion H; subst. exact HP'.
  - apply bind_inv_Ret in H as (r & s2 & Hq & H).
    assert (Hs2 : (tick s1 <= tick s2)%nat).
    { revert Hq. apply advances_try.
      - apply advances_bind; [apply query_advances | clock].
      - intros e. destruct (is_ValueError e); clock. }
    destruct r as [answer|]; [|inversion H; subst; exact HP'].
    apply bind_inv_Ret in H as (evs & s3 & Hj & H).
    inversion H; subst evaluations' s'. cbn [tick] in *.
    apply try_inv_Ret in Hj as [Hj | (e & s4 & _ & Hj)].
    + apply bind_inv_Ret in Hj as (x & s4 & Hx & Hj).
      inversion Hj; subst evs s4.
      apply Forall_app. split; [exact HP'|].
      constructor; [|constructor].
      apply (label_from_judge_widen W (tick s2) (tick s3)); [lia | lia |].
      exact (proj1 (judge_label _ _ _ _ _ _ Hx)).
    + inversion Hj; subst. exact HP'.
Qed.

Lemma evaluate_loop_labels (lo total : nat) (sample : list (nat * gt_row)) :
  forall (i : nat) (evaluations evaluations' : list eval_record) (s s' : State),
  (lo <= tick s)%nat ->
  Forall (label_from_judge W lo (tick s)) evaluations ->
  Main.evaluate_loop W rag i total sample evaluations s = (Ret evaluations', s') ->
  (tick s <= tick s')%nat
  /\ Forall (label_from_judge W lo (tick s')) evaluations'.
Proof.
  induction sample as [|[pos row] sample IH]; intros i evs evs' s s' Hlo HP H; simpl in H.
  - inversion H; subst. split; [lia | exact HP].
  - apply bind_inv_Ret in H as (evs1 & s1 & Hitem & H).
    destruct (evaluate_item_labels lo i total row evs evs1 s s1 Hlo HP Hitem)
      as [Hs1 HP1].
    destruct (IH (S i) evs1 evs' s1 s' ltac:(lia) HP1 H) as [Hs' HP'].
    split; [lia | exact HP'].
Qed.

Lemma load_ground_truth_stores_nothing : stores_nothing (Main.load_ground_truth W).
Proof.
  unfold Main.load_ground_truth. apply stores_nothing_try; [quiet|].
  intros e. destruct (is_FileNotFoundError e); quiet.
Qed.

Lemma load_ground_truth_advances : advances (Main.load_ground_truth W).
Proof.
  unfold Main.load_ground_truth. apply advances_try; [clock|].
  intros e. destruct (is_FileNotFoundError e); clock.
Qed.

End Labels.

(** C8, as stated, fails: a judge that answers with lower-case member
    names yields a stored record whose label is [UNKNOWN]. *)
Lemma evaluation_label_outside_the_set :
  exists x s',
    Main.evaluate_rag Scenario.lowercase_judge_run Rag.default_rag 200 Scenario.start
      = (Ret (Some [x]), s')
    /\ persisted (trace s') = [x]
    /\ ev_relevance x = "UNKNOWN"
    /\ ~ In (ev_relevance x) relevance_labels.
Proof.
  do 2 eexists. split; [vm_compute; reflexivity|]. simpl.
  repeat split. intros [H|[H|[H|[]]]]; discriminate H.
Qed.

(** C8, amended.  Every record that an evaluation run returns carries
    as its relevance label the text ([str]) of the ['Relevance'] member
    of the JSON object that the judge's reply parsed to, or [UNKNOWN]
    when the object has no such member; the reply in question is the
    judge model's reply, in a call made during this run, to the judge
    prompt built from the record's own question and answer.  The label
    is not checked against NON_RELEVANT, PARTLY_RELEVANT, RELEVANT.
    The rows the run inserts into [rag_evaluations] are exactly the
    records it returns. *)
Theorem evaluation_labels_come_from_judge
  (W : World) (rag : Rag.RAGSystem) (sample_size : Z) (s s' : State)
  (records : list eval_record) :
  Main.evaluate_rag W rag sample_size s = (Ret (Some records), s') ->
  Forall (label_from_judge W (tick s) (tick s')) records
  /\ persisted (trace s') = (persisted (trace s) ++ records)%list.
Proof.
  intros H. unfold Main.evaluate_rag in H.
  apply bind_inv_Ret in H as (loaded & s1 & Hload & H).
  destruct loaded as [ground_truth|]; [|inversion H].
  apply bind_inv_Ret in H as (sample & s2 & Hdraw & H).
  apply lift_inv_Ret in Hdraw as [_ ->].
  unfold Main.evaluate_sample in H.
  apply bind_inv_Ret in H as ([] & s3 & Hemit & H).
  apply bind_inv_Ret in H as (evaluations & s4 & Hloop & H).
  apply bind_inv_Ret in H as ([] & s5 & Hstore & H).
  inversion H; subst records s'. clear H.
  inversion Hstore as [[Hreply Hs5]]. clear Hstore.
  assert (Hs1 : (tick s <= tick s1)%nat)
    by exact (load_ground_truth_advances W _ _ _ Hload).
  assert (Hs3 : (tick s1 <= tick s3)%nat) by exact (advances_emit _ _ _ _ Hemit).
  destruct (evaluate_loop_labels W rag (tick s) _ sample 0%nat [] evaluations s3 s4
              ltac:(lia) (Forall_nil _) Hloop) as [Hs4 Hlabels].
  split.
  - eapply Forall_impl; [|exact Hlabels]. intros x.
    apply label_from_judge_widen; [lia | simpl; lia].
  - simpl. rewrite !persisted_app. simpl. rewrite !app_nil_r.
    rewrite (evaluate_loop_stores_nothing _ _ _ _ _ _ _ _ _ Hloop).
    assert (Hq : stores_nothing (emit (StProgress 0 1))) by quiet.
    rewrite (Hq _ _ _ Hemit).
    now rewrite (load_ground_truth_stores_nothing _ _ _ _ Hload).
Qed.

Lemma evaluation_labels_come_from_judge_witness :
  Forall (label_from_judge Scenario.lowercase_judge_run 0 6)
    [mkEval "abc" Scenario.bee_question "By the waggle dance."
       "UNKNOWN" "No explanation provided"].
Proof.
  refine (proj1 (evaluation_labels_come_from_judge Scenario.lowercase_judge_run
                   Rag.default_rag 200 Scenario.start
                   (mkState 6 _) _ _)).
  vm_compute. reflexivity.
Defined.

(** ** Evaluation: which items are skipped *)

Section Skipping.

Variable W : World.
Variable rag : Rag.RAGSystem.

(** An item whose video has no index is skipped with a warning. *)
Lemma evaluate_item_without_index (i total : nat) (row : gt_row)
  (evaluations : list eval_record) (index_name : option string) (s : State) :
  db_get_index W (tick s) (fst row) Main.eval_embedding_model = Ret index_name ->
  truthy_opt truthy_str index_name = false ->
  Main.evaluate_item W rag i total row evaluations s
    = (Ret evaluations,
       mkState (S (tick s))
         (trace s ++ [GetIndex (fst row) Main.eval_embedding_model;
                      Log WARNING ("No index found for video " ++ fst row
                                   ++ ". Skipping this question.")])).
Proof.
  intros Hget Hfalsy. unfold Main.evaluate_item, bind, call, emit, ret. cbv zeta.
  rewrite Hget. cbn [tick trace]. rewrite Hfalsy. cbn [negb tick trace].
  now rewrite <- app_assoc.
Qed.

(** The handler [except ValueError] around [rag_system.query] is never
    entered: the call always yields an answer. *)
Lemma query_handler_unreachable (question : string) (index_name : option string)
  (h : exn -> M (option string)) (s : State) :
  exists answer prompt s1,
    Rag.query W rag question "hybrid" index_name s = (Ret (answer, prompt), s1)
    /\ try_except
         (ap <- Rag.query W rag question "hybrid" index_name ;; ret (Some (fst ap))) h s
       = (Ret (Some answer), s1).
Proof.
  destruct (query_returns W rag question "hybrid" index_name s)
    as (answer & prompt & s1 & Hq).
  exists answer, prompt, s1. split; [exact Hq|].
  apply try_Ret. now erewrite bind_Ret by exact Hq.
Qed.

(** An item whose judge call, JSON parsing or [.get] fails is skipped
    with a warning; the progress bar still advances. *)
Lemma evaluate_item_judge_failure (i total : nat) (row : gt_row)
  (evaluations : list eval_record) (name answer prompt : string) (s s1 s2 : State)
  (e : exn) :
  db_get_index W (tick s) (fst row) Main.eval_embedding_model = Ret (Some name) ->
  truthy_str name = true ->
  Rag.query W rag (snd row) "hybrid" (Some name)
    (mkState (S (tick s)) (trace s ++ [GetIndex (fst row) Main.eval_embedding_model]))
    = (Ret (answer, prompt), s1) ->
  Main.judge W (fst row) (snd row) answer s1 = (Raise e, s2) ->
  Main.evaluate_item W rag i total row evaluations s
    = (Ret evaluations,
       mkState (tick s2)
         (trace s2 ++ [Log WARNING ("Failed to evaluate question: " ++ snd row
                                    ++ ". Error: " ++ str_exn e);
                       StWarning ("Failed to evaluate question: " ++ snd row);
                       StProgress (i + 1) total])).
Proof.
  intros Hget Hname Hq Hj.
  unfold Main.evaluate_item. cbv zeta.
  erewrite bind_Ret by (unfold call; rewrite Hget; reflexivity).
  cbn [truthy_opt]. rewrite Hname. cbn [negb].
  erewrite bind_Ret
    by (apply try_Ret; erewrite bind_Ret by exact Hq; reflexivity).
  cbn [fst].
  erewrite bind_Ret
    by (erewrite try_Raise by (erewrite bind_Raise by exact Hj; reflexivity);
        reflexivity).
  unfold bind, emit, ret. cbn [tick trace]. now rewrite <- !app_assoc.
Qed.

(** An item whose query failed is not skipped: the error text goes to
    the judge as the answer, and the judge's verdict is appended. *)
Lemma evaluate_item_failed_query_is_judged (i total : nat) (row : gt_row)
  (evaluations : list eval_record) (name : string) (s s2 : State)
  (e : exn) (x : eval_record) :
  db_get_index W (tick s) (fst row) Main.eval_embedding_model = Ret (Some name) ->
  truthy_str name = true ->
  dp_search W (S (tick s)) (snd row) 3 "hybrid" name = Raise e ->
  Main.judge W (fst row) (snd row) ("An error occurred: " ++ str_exn e)
    (mkState (S (S (tick s)))
       (trace s ++ [GetIndex (fst row) Main.eval_embedding_model;
                    Search (snd row) 3 "hybrid" name;
                    error_log (str_exn e)]))
    = (Ret x, s2) ->
  fst (Main.evaluate_item W rag i total row evaluations s)
    = Ret (evaluations ++ [x])%list.
Proof.
  intros Hget Hname Hsearch Hj.
  unfold Main.evaluate_item. cbv zeta.
  erewrite bind_Ret by (unfold call; rewrite Hget; reflexivity).
  cbn [truthy_opt]. rewrite Hname. cbn [negb].
  erewrite bind_Ret.
  2:{ apply try_Ret. erewrite bind_Ret; [reflexivity|].
      apply query_search_error; [exact Hname | exact Hsearch]. }
  cbn [fst error_answer tick trace]. rewrite <- app_assoc. cbn [app].
  erewrite bind_Ret
    by (apply try_Ret; erewrite bind_Ret by exact Hj; reflexivity).
  reflexivity.
Qed.

End Skipping.

(** C6.  Where the code departs from the claim.  One ground-truth row;
    its video is indexed; the search backend is down, so the query
    fails; the judge answers in the requested format.  The sample has
    one item, the query yields an error message, and the run returns
    one record, whose answer is that error message: the item with the
    failed query is not skipped. *)
Theorem evaluation_keeps_failed_query :
  Main.draw_sample Scenario.failed_query_run Scenario.bee_rows 200
    = Ret [(0%nat, ("abc", Scenario.bee_question))]
  /\ fst (Rag.query Scenario.failed_query_run Rag.default_rag Scenario.bee_question
            "hybrid" (Some Scenario.abc_index) Scenario.start)
       = Ret ("An error occurred: connection refused", EmptyString)
  /\ fst (Main.evaluate_rag Scenario.failed_query_run Rag.default_rag 200 Scenario.start)
       = Ret (Some [mkEval "abc" Scenario.bee_question
                      "An error occurred: connection refused"
                      "NON_RELEVANT" "The answer is an error message."]).
Proof.
  split; [|split]; vm_compute; reflexivity.
Qed.

(** With a registry that answers, no item can abort the loop. *)
Lemma evaluate_item_completes (W : World) (rag : Rag.RAGSystem) (i total : nat)
  (row : gt_row) (evaluations : list eval_record) (s : State) :
  (exists r, db_get_index W (tick s) (fst row) Main.eval_embedding_model = Ret r) ->
  exists evaluations' s',
    Main.evaluate_item W rag i total row evaluations s = (Ret evaluations', s').
Proof.
  intros [index_name Hget]. unfold Main.evaluate_item. cbv zeta.
  erewrite bind_Ret by (unfold call; rewrite Hget; reflexivity).
  destruct (negb (truthy_opt truthy_str index_name)); [do 2 eexists; reflexivity|].
  match goal with |- context [bind (try_except ?m ?h) _ ?s0] =>
    destruct (query_handler_unreachable W rag (snd row) index_name h s0)
      as (answer & prompt & s1 & _ & Hq) end.
  erewrite bind_Ret by exact Hq.
  destruct (Main.judge W (fst row) (snd row) answer s1) as [[x|e] s2] eqn:Hj.
  - erewrite bind_Ret
      by (apply try_Ret; erewrite bind_Ret by exact Hj; reflexivity).
    do 2 eexists. reflexivity.
  - erewrite bind_Ret
      by (erewrite try_Raise by (erewrite bind_Raise by exact Hj; reflexivity);
          reflexivity).
    do 2 eexists. reflexivity.
Qed.

Lemma evaluate_loop_completes (W : World) (rag : Rag.RAGSystem) (total : nat)
  (sample : list (nat * gt_row)) :
  (forall t video_id, exists r, db_get_index W t video_id Main.eval_embedding_model = Ret r) ->
  forall (i : nat) (evaluations : list eval_record) (s : State),
  exists evaluations' s',
    Main.evaluate_loop W rag i total sample evaluations s = (Ret evaluations', s').
Proof.
  intros Hdb. induction sample as [|[pos row] sample IH]; intros i evs s; simpl.
  - do 2 eexists. reflexivity.
  - destruct (evaluate_item_completes W rag i total row evs s (Hdb _ _))
      as (evs1 & s1 & Hitem).
    erewrite bind_Ret by exact Hitem. apply IH.
Qed.

(** ** Ground-truth generation *)

Section GroundTruth.

Variable W : World.
Variable video_id : option string.
Variable transcript : string.

Let prompt : string := Main.questions_prompt transcript.

(** The model call raises: no dataset, the failure is logged and shown. *)
Lemma ground_truth_model_error (s : State) (e : exn) :
  ollama_chat W (tick s) Main.judge_model prompt = Raise e ->
  Main.ground_truth_from W video_id transcript s
    = (Ret None,
       mkState (S (tick s))
         (trace s ++ Chat Main.judge_model prompt
                  :: Log ERROR ("Error generating questions: " ++ str_exn e)
                  :: gt_failure_trace)).
Proof.
  intros H. unfold Main.ground_truth_from, Main.generate_questions, Main.has_questions.
  unfold bind, try_except, call, emit, ret, lift. fold prompt. rewrite H.
  cbn. now rewrite <- !app_assoc.
Qed.

(** The reply is not valid JSON: likewise. *)
Lemma ground_truth_invalid_json (s : State) (text : string) (e : exn) :
  ollama_chat W (tick s) Main.judge_model prompt = Ret text ->
  json_loads W text = Raise e ->
  Main.ground_truth_from W video_id transcript s
    = (Ret None,
       mkState (S (tick s))
         (trace s ++ Chat Main.judge_model prompt
                  :: Print ("Printing the response from OLLAMA: " ++ text)
                  :: Log ERROR ("Error generating questions: " ++ str_exn e)
                  :: gt_failure_trace)).
Proof.
  intros H He. unfold Main.ground_truth_from, Main.generate_questions, Main.has_questions.
  unfold bind, try_except, call, emit, ret, lift. fold prompt. rewrite H.
  cbn. rewrite He. cbn. now rewrite <- !app_assoc.
Qed.

(** The reply is a JSON object without a [questions] member: likewise. *)
Lemma ground_truth_missing_field (s : State) (text : string)
  (items : list (string * json)) :
  ollama_chat W (tick s) Main.judge_model prompt = Ret text ->
  json_loads W text = Ret (JDict items) ->
  dict_lookup "questions" items = None ->
  Main.ground_truth_from W video_id transcript s
    = (Ret None,
       mkState (S (tick s))
         (trace s ++ Chat Main.judge_model prompt
                  :: Print ("Printing the response from OLLAMA: " ++ text)
                  :: gt_failure_trace)).
Proof.
  intros H Hp Hl. unfold Main.ground_truth_from, Main.generate_questions, Main.has_questions.
  unfold bind, try_except, call, emit, ret, lift. fold prompt. rewrite H.
  cbn. rewrite Hp. cbn. rewrite Hl.
  destruct (truthy_list items); cbn; now rewrite <- !app_assoc.
Qed.

(** The reply is a JSON object whose [questions] member is a list: one
    row per element, in order, written to the CSV file and, when the
    write succeeds, returned. *)
Lemma ground_truth_rows (s : State) (text : string)
  (items : list (string * json)) (qs : list json) :
  ollama_chat W (tick s) Main.judge_model prompt = Ret text ->
  json_loads W text = Ret (JDict items) ->
  dict_lookup "questions" items = Some (JList qs) ->
  let df := map (fun q => (Main.video_label video_id, q)) qs in
  write_csv W (S (tick s)) Main.gt_path df = Ret tt ->
  Main.ground_truth_from W video_id transcript s
    = (Ret (Some df),
       mkState (S (S (tick s)))
         (trace s ++ [Chat Main.judge_model prompt;
                      Print ("Printing the response from OLLAMA: " ++ text);
                      WriteCsv Main.gt_path df;
                      StSuccess ("Ground truth data generated and saved to "
                                 ++ Main.gt_path)])).
Proof.
  intros H Hp Hl df Hw. unfold Main.ground_truth_from, Main.generate_questions, Main.has_questions.
  unfold bind, try_except, call, emit, ret, lift. fold prompt. rewrite H.
  assert (Ht : truthy_list items = true)
    by (destruct items; [discriminate | reflexivity]).
  cbn. rewrite Hp. cbn. rewrite Ht, Hl. cbn. fold df. rewrite Hw. cbn.
  now rewrite <- !app_assoc.
Qed.

(** The reply is a JSON object whose [questions] member is a number,
    [null] or a boolean: the function raises [TypeError]. *)
Lemma ground_truth_field_not_iterable (s : State) (text : string)
  (items : list (string * json)) (v : json) :
  ollama_chat W (tick s) Main.judge_model prompt = Ret text ->
  json_loads W text = Ret (JDict items) ->
  dict_lookup "questions" items = Some v ->
  iter v = Raise (mkExn TypeError "object is not iterable") ->
  fst (Main.ground_truth_from W video_id transcript s)
    = Raise (mkExn TypeError "object is not iterable").
Proof.
  intros H Hp Hl Hv. unfold Main.ground_truth_from, Main.generate_questions, Main.has_questions.
  unfold bind, try_except, call, emit, ret, lift. fold prompt. rewrite H.
  assert (Ht : truthy_list items = true)
    by (destruct items; [discriminate | reflexivity]).
  cbn. rewrite Hp. cbn. rewrite Ht, Hl. cbn. now rewrite Hv.
Qed.

End GroundTruth.

(** C7.  Where the code departs from the claim.  The model's reply is
    valid JSON in both runs.  In the first it is an object that has a
    [questions] member, holding a number: no dataset is produced and
    the function raises [TypeError].  In the second it is a JSON string
    that mentions the word questions, so it has no [questions] member:
    instead of the logged and displayed failure (result [None]) the
    function raises [TypeError]. *)
Theorem ground_truth_raises_type_error :
  json_loads (Scenario.question_writer Scenario.number_field_text)
    Scenario.number_field_text = Ret (JDict [("questions", JInt 7)])
  /\ fst (Main.generate_ground_truth (Scenario.question_writer Scenario.number_field_text)
            None (Some Scenario.bee_transcript) Scenario.start)
       = Raise (mkExn TypeError "object is not iterable")
  /\ json_loads (Scenario.question_writer Scenario.bare_string_text)
       Scenario.bare_string_text = Ret (JStr "Here are the questions you asked for.")
  /\ fst (Main.generate_ground_truth (Scenario.question_writer Scenario.bare_string_text)
            None (Some Scenario.bee_transcript) Scenario.start)
       = Raise (mkExn TypeError "indices must be integers").
Proof.
  repeat split; vm_compute; reflexivity.
Qed.

Example ground_truth_two_questions :
  fst (Main.generate_ground_truth (Scenario.question_writer Scenario.two_questions_text)
         None (Some Scenario.bee_transcript) Scenario.start)
  = Ret (Some [("custom", JStr "How do bees communicate?");
               ("custom", JStr "What does the waggle dance indicate?")]).
Proof. vm_compute. reflexivity. Qed.

Example ground_truth_not_json :
  fst (Main.generate_ground_truth (Scenario.question_writer "Sure! Here are ten questions.")
         None (Some Scenario.bee_transcript) Scenario.start)
  = Ret None.
Proof. vm_compute. reflexivity. Qed.

(** * Further properties of the code *)

(** ** RAGSystem.generate: the shape of every run *)

Lemma backoff_length (k : nat) : forall from, List.length (backoff from k) = k.
Proof. induction k as [|k IH]; intros from; simpl; [reflexivity | now rewrite IH]. Qed.

Lemma backoff_total (k : nat) :
  forall from, 0 <= from -> total (backoff from k) = 2 ^ from * (2 ^ Z.of_nat k - 1).
Proof.
  induction k as [|k IH]; intros from Hfrom.
  - simpl. lia.
  - cbn [backoff total fold_right]. fold (total (backoff (from + 1) k)).
    rewrite IH by lia. rewrite Nat2Z.inj_succ, !Z.pow_succ_r by lia.
    rewrite Z.pow_add_r by lia. change (2 ^ 1) with 2. ring.
Qed.

Section GenerateShape.

Variable W : World.
Variable self : Rag.RAGSystem.
Variable prompt : string.

(** A run of the loop with at least one iteration left consists of
    [k] failed attempts, each followed by its wait, and one last
    attempt, which either succeeds or is the last one allowed. *)
Lemma generate_loop_shape (todo : nat) :
  forall (a : Z) (s : State),
  a + Z.of_nat (S todo) = Rag.max_retries self ->
  exists (k : nat) (v : option string) (tr : list event),
    (k <= todo)%nat
    /\ Rag.generate_loop W self prompt (S todo) a s
         = (Ret v, mkState (tick s + S k) (trace s ++ tr))
    /\ schedule tr = retry_schedule a k
    /\ (forall i, (i < k)%nat ->
                  exists e, ollama_chat W (tick s + i) (Rag.model self) prompt = Raise e)
    /\ ((exists text, v = Some text
                      /\ ollama_chat W (tick s + k) (Rag.model self) prompt = Ret text)
        \/ (v = None /\ k = todo
            /\ exists e, ollama_chat W (tick s + k) (Rag.model self) prompt = Raise e)).
Proof.
  induction todo as [|todo IH]; intros a s Hsum;
    destruct (ollama_chat W (tick s) (Rag.model self) prompt) as [text|e] eqn:Hc.
  - exists 0%nat, (Some text). eexists. split; [lia|]. split; [|split; [|split]].
    + cbn [Rag.generate_loop].
      erewrite bind_Ret by (apply attempt_success; exact Hc).
      unfold ret. do 2 f_equal. lia.
    + reflexivity.
    + intros i Hi. lia.
    + left. exists text. rewrite Nat.add_0_r. auto.
  - assert (Ha : a = Rag.max_retries self - 1) by lia.
    destruct (attempt_failure_last W self prompt a s e Hc Ha) as [msg Hm].
    exists 0%nat, None. eexists. split; [lia|]. split; [|split; [|split]].
    + cbn [Rag.generate_loop]. erewrite bind_Ret by exact Hm.
      unfold ret. do 2 f_equal. lia.
    + reflexivity.
    + intros i Hi. lia.
    + right. rewrite Nat.add_0_r. eauto.
  - exists 0%nat, (Some text). eexists. split; [lia|]. split; [|split; [|split]].
    + change (Rag.generate_loop W self prompt (S (S todo)) a s)
        with (bind (Rag.generate_attempt W self prompt a)
                (fun r => match r with
                          | Return v => ret v
                          | Next => Rag.generate_loop W self prompt (S todo) (a + 1)
                          end) s).
      erewrite bind_Ret by (apply attempt_success; exact Hc).
      unfold ret. do 2 f_equal. lia.
    + reflexivity.
    + intros i Hi. lia.
    + left. exists text. rewrite Nat.add_0_r. auto.
  - assert (Ha : a <> Rag.max_retries self - 1) by lia.
    destruct (attempt_failure_retry W self prompt a s e Hc Ha) as [msg Hm].
    match type of Hm with _ = (_, ?s1) =>
      destruct (IH (a + 1) s1) as (k & v & tr & Hk & Hrun & Hs & Hfail & Hlast) end;
      [lia|].
    cbn [tick trace] in Hrun, Hfail, Hlast.
    exists (S k), v,
      (Chat (Rag.model self) prompt :: Log ERROR msg :: Sleep (2 ^ a) :: tr).
    split; [lia|]. split; [|split; [|split]].
    + change (Rag.generate_loop W self prompt (S (S todo)) a s)
        with (bind (Rag.generate_attempt W self prompt a)
                (fun r => match r with
                          | Return v => ret v
                          | Next => Rag.generate_loop W self prompt (S todo) (a + 1)
                          end) s).
      erewrite bind_Ret by exact Hm. cbv beta iota. rewrite Hrun.
      rewrite <- app_assoc. simpl. do 2 f_equal. lia.
    + simpl. now rewrite Hs.
    + intros [|i] Hi.
      * rewrite Nat.add_0_r. eauto.
      * destruct (Hfail i ltac:(lia)) as [e' He']. exists e'.
        now rewrite Nat.add_succ_r.
    + rewrite Nat.add_succ_r.
      destruct Hlast as [(text & -> & Ht) | (-> & -> & e' & He')].
      * left. eauto.
      * right. eauto.
Qed.

End GenerateShape.

(** X1.  The whole schedule of [RAGSystem.generate], whatever the
    model does.  With [max_retries] below one it makes no call, does
    not sleep and returns [None].  Otherwise its run is, in this order,
    [k] attempts each followed by its wait of 1, 2, 4, ... seconds, and
    then one last attempt, for some [k < max_retries]: it never sleeps
    after its last attempt, it has waited [2 ^ k - 1] seconds in all,
    and that stays below [2 ^ (max_retries - 1)]. *)
Theorem generate_total_backoff
  (W : World) (self : Rag.RAGSystem) (prompt : string) (s : State) :
  let n := Z.to_nat (Rag.max_retries self) in
  exists v tr,
    Rag.generate W self prompt s = (Ret v, mkState (tick s + attempts tr) (trace s ++ tr))
    /\ (n = 0%nat -> v = None /\ tr = [])
    /\ ((0 < n)%nat ->
        exists k, (k < n)%nat
          /\ schedule tr = retry_schedule 0 k
          /\ attempts tr = S k
          /\ sleeps tr = backoff 0 k
          /\ total (sleeps tr) = 2 ^ Z.of_nat k - 1
          /\ total (sleeps tr) < 2 ^ (Z.of_nat n - 1)).
Proof.
  intros n. unfold Rag.generate. fold n.
  destruct n as [|m] eqn:Hn.
  - exists None, []. simpl. unfold ret. rewrite Nat.add_0_r, app_nil_r.
    destruct s. repeat split; auto. intros H. lia.
  - destruct (generate_loop_shape W self prompt m 0 s)
      as (k & v & tr & Hk & Hrun & Hs & _); [lia|].
    assert (Hsl : sleeps tr = backoff 0 k)
      by now rewrite <- schedule_waits, Hs, retry_schedule_waits.
    assert (Hat : attempts tr = S k)
      by now rewrite <- schedule_attempts, Hs, retry_schedule_attempts.
    exists v, tr. rewrite Hat. split; [exact Hrun|]. split; [discriminate|].
    intros _. exists k. rewrite Hsl, backoff_total by lia.
    repeat split; auto; try lia.
    replace (Z.of_nat (S m) - 1) with (Z.of_nat m) by lia.
    assert (2 ^ Z.of_nat k <= 2 ^ Z.of_nat m) by (apply Z.pow_le_mono_r; lia).
    lia.
Qed.

(** X2.  [RAGSystem.generate] never gives up early and never invents a
    text: when it returns a text, that text is the reply of the first
    call that did not raise, made within the first [max_retries] calls;
    when it returns [None], each of the [max_retries] calls it made
    raised. *)
Theorem generate_result_inversion
  (W : World) (self : Rag.RAGSystem) (prompt : string) (s s' : State)
  (v : option string) :
  Rag.generate W self prompt s = (Ret v, s') ->
  let n := Z.to_nat (Rag.max_retries self) in
  match v with
  | Some text =>
      exists k, (k < n)%nat
        /\ (forall i, (i < k)%nat ->
                      exists e, ollama_chat W (tick s + i) (Rag.model self) prompt = Raise e)
        /\ ollama_chat W (tick s + k) (Rag.model self) prompt = Ret text
        /\ tick s' = (tick s + S k)%nat
  | None =>
      (forall i, (i < n)%nat ->
                 exists e, ollama_chat W (tick s + i) (Rag.model self) prompt = Raise e)
      /\ tick s' = (tick s + n)%nat
  end.
Proof.
  intros Hrun n. unfold Rag.generate in Hrun. fold n in Hrun.
  destruct n as [|m] eqn:Hn.
  - simpl in Hrun. inversion Hrun; subst. split; [intros i Hi; lia | lia].
  - destruct (generate_loop_shape W self prompt m 0 s)
      as (k & v0 & tr & Hk & Hrun0 & _ & Hfail & Hlast); [lia|].
    rewrite Hrun0 in Hrun. inversion Hrun; subst v0 s'. clear Hrun.
    destruct Hlast as [(text & -> & Ht) | (-> & -> & e & He)].
    + exists k. repeat split; auto. lia.
    + split; [|reflexivity]. intros i Hi.
      destruct (Nat.eq_dec i m) as [->|Hne]; [eauto | apply Hfail; lia].
Qed.

Lemma generate_result_inversion_witness :
  exists k, (k < 3)%nat
    /\ Scenario.fails_then 2 "answer" (0 + k) "phi3" "q" = Ret "answer".
Proof.
  destruct (generate_result_inversion
              (Scenario.scripted (Scenario.fails_then 2 "answer") [])
              Rag.default_rag "q" Scenario.start
              (snd (Rag.generate (Scenario.scripted (Scenario.fails_then 2 "answer") [])
                      Rag.default_rag "q" Scenario.start))
              (Some "answer"))
    as (k & Hk & _ & Hok & _).
  - vm_compute. reflexivity.
  - exists k. split; [exact Hk | exact Hok].
Defined.

(** ** Rewriting: the empty reply, and the cost of a rewrite *)

Lemma rag_rewrite_first_reply
  (W : World) (self : Rag.RAGSystem) (prompt query text : string) (s : State) :
  0 < Rag.max_retries self ->
  ollama_chat W (tick s) (Rag.model self) prompt = Ret text ->
  fst (Rag.rewrite_with W self prompt query s)
    = Ret (if truthy_str text then text else query, prompt).
Proof.
  intros Hpos Hok.
  destruct (generate_loop_success W self prompt 0 (Z.to_nat (Rag.max_retries self)) 0 s text)
    as (tr & Hrun & _); [lia | lia | intros i Hi; lia | now rewrite Nat.add_0_r |].
  unfold Rag.rewrite_with, Rag.generate. erewrite bind_Ret by exact Hrun.
  cbv beta iota. destruct (truthy_str text); reflexivity.
Qed.

Lemma rewriter_not_error_like (W : World) (self : Rewriter.QueryRewriter)
  (query text : string) (s : State) :
  startswith text "Error:" = false ->
  (ollama_chat W (tick s) (Rewriter.model self) (Rewriter.cot_prompt query) = Ret text ->
   fst (Rewriter.rewrite_cot W self query s) = Ret (text, Rewriter.cot_prompt query))
  /\ (ollama_chat W (tick s) (Rewriter.model self) (Rewriter.react_prompt query) = Ret text ->
      fst (Rewriter.rewrite_react W self query s) = Ret (text, Rewriter.react_prompt query)).
Proof.
  intros Hne. split; intros Hok.
  - erewrite rewrite_cot_branches by (apply rewriter_generate_ok; exact Hok).
    now rewrite Hne.
  - erewrite rewrite_react_branches by (apply rewriter_generate_ok; exact Hok).
    now rewrite Hne.
Qed.

(** X3.  When the model answers with the empty text, the two rewriters
    disagree: [RAGSystem.rewrite_cot] and [rewrite_react] treat the
    empty reply as a failure and return the original query, while
    [QueryRewriter.rewrite_cot] and [rewrite_react] return the empty
    text as the rewritten query. *)
Theorem rewrite_empty_reply (W : World) (query : string) (s : State) :
  (forall rag,
      0 < Rag.max_retries rag ->
      ollama_chat W (tick s) (Rag.model rag) (Rag.cot_prompt query) = Ret EmptyString ->
      fst (Rag.rewrite_cot W rag query s) = Ret (query, Rag.cot_prompt query))
  /\ (forall rag,
        0 < Rag.max_retries rag ->
        ollama_chat W (tick s) (Rag.model rag) (Rag.react_prompt query) = Ret EmptyString ->
        fst (Rag.rewrite_react W rag query s) = Ret (query, Rag.react_prompt query))
  /\ (forall rw,
        ollama_chat W (tick s) (Rewriter.model rw) (Rewriter.cot_prompt query)
          = Ret EmptyString ->
        fst (Rewriter.rewrite_cot W rw query s)
          = Ret (EmptyString, Rewriter.cot_prompt query))
  /\ (forall rw,
        ollama_chat W (tick s) (Rewriter.model rw) (Rewriter.react_prompt query)
          = Ret EmptyString ->
        fst (Rewriter.rewrite_react W rw query s)
          = Ret (EmptyString, Rewriter.react_prompt query)).
Proof.
  repeat split.
  - intros rag Hpos Hok. unfold Rag.rewrite_cot.
    now rewrite (rag_rewrite_first_reply W rag _ query EmptyString s Hpos Hok).
  - intros rag Hpos Hok. unfold Rag.rewrite_react.
    now rewrite (rag_rewrite_first_reply W rag _ query EmptyString s Hpos Hok).
  - intros rw Hok.
    apply (proj1 (rewriter_not_error_like W rw query EmptyString s eq_refl) Hok).
  - intros rw Hok.
    apply (proj2 (rewriter_not_error_like W rw query EmptyString s eq_refl) Hok).
Qed.

Lemma rewrite_empty_reply_witness :
  fst (Rag.rewrite_cot (Scenario.scripted (fun _ _ _ => Ret EmptyString) [])
         Rag.default_rag "how do bees show direction" Scenario.start)
    = Ret ("how do bees show direction", Rag.cot_prompt "how do bees show direction")
  /\ fst (Rewriter.rewrite_cot (Scenario.scripted (fun _ _ _ => Ret EmptyString) [])
            Rewriter.default_rewriter "how do bees show direction" Scenario.start)
       = Ret (EmptyString, Rewriter.cot_prompt "how do bees show direction").
Proof.
  destruct (rewrite_empty_reply (Scenario.scripted (fun _ _ _ => Ret EmptyString) [])
              "how do bees show direction" Scenario.start) as (Hr & _ & Hq & _).
  split.
  - apply (Hr Rag.default_rag); [simpl; lia | reflexivity].
  - apply (Hq Rewriter.default_rewriter). reflexivity.
Defined.

(** X4.  A rewrite by [QueryRewriter] never raises and costs exactly
    one model call, with no retry and no sleep; its second component
    is always the prompt built from the query. *)
Theorem rewriter_single_call
  (W : World) (self : Rewriter.QueryRewriter) (query : string) (s : State) :
  (exists text tr,
      Rewriter.rewrite_cot W self query s
        = (Ret (text, Rewriter.cot_prompt query), mkState (S (tick s)) (trace s ++ tr))
      /\ attempts tr = 1%nat /\ sleeps tr = [])
  /\ (exists text tr,
        Rewriter.rewrite_react W self query s
          = (Ret (text, Rewriter.react_prompt query), mkState (S (tick s)) (trace s ++ tr))
        /\ attempts tr = 1%nat /\ sleeps tr = []).
Proof.
  split.
  - destruct (ollama_chat W (tick s) (Rewriter.model self) (Rewriter.cot_prompt query))
      as [text|e] eqn:Hc.
    + erewrite rewrite_cot_branches by (apply rewriter_generate_ok; exact Hc).
      destruct (startswith text "Error:"); do 2 eexists;
        (split; [cbn [tick trace]; rewrite <- ?app_assoc; reflexivity | split; reflexivity]).
    + erewrite rewrite_cot_branches by (apply rewriter_generate_error; exact Hc).
      rewrite startswith_error_prefix. do 2 eexists.
      split; [cbn [tick trace]; rewrite <- ?app_assoc; reflexivity | split; reflexivity].
  - destruct (ollama_chat W (tick s) (Rewriter.model self) (Rewriter.react_prompt query))
      as [text|e] eqn:Hc.
    + erewrite rewrite_react_branches by (apply rewriter_generate_ok; exact Hc).
      destruct (startswith text "Error:"); do 2 eexists;
        (split; [cbn [tick trace]; rewrite <- ?app_assoc; reflexivity | split; reflexivity]).
    + erewrite rewrite_react_branches by (apply rewriter_generate_error; exact Hc).
      rewrite startswith_error_prefix. do 2 eexists.
      split; [cbn [tick trace]; rewrite <- ?app_assoc; reflexivity | split; reflexivity].
Qed.

(** ** RAGSystem.query: what the returned prompt tells *)

Lemma get_prompt_nonempty (user_query : string) (docs : list string) :
  truthy_str (Rag.get_prompt user_query docs) = true.
Proof. reflexivity. Qed.

(** X5.  The prompt returned by [RAGSystem.query] tells whether the
    model answered.  Either the prompt is empty, and the answer is the
    fixed no-documents message or an [An error occurred: ...] message;
    or the prompt is the non-empty RAG prompt built from the passages
    the search returned, and the answer is the model's reply to exactly
    that prompt.  A query makes at most one search and at most one
    model call, and never sleeps: it does not retry either of them. *)
Theorem query_prompt_tells
  (W : World) (self : Rag.RAGSystem) (user_query search_method : string)
  (index_name : option string) (s s' : State) (answer prompt : string) :
  Rag.query W self user_query search_method index_name s = (Ret (answer, prompt), s') ->
  ((prompt = EmptyString
    /\ (answer = Rag.no_docs_answer \/ exists msg, answer = "An error occurred: " ++ msg))
   \/ (truthy_str prompt = true
       /\ exists name docs,
            index_name = Some name
            /\ dp_search W (tick s) user_query 3 search_method name = Ret docs
            /\ docs <> []
            /\ prompt = Rag.get_prompt user_query docs
            /\ ollama_chat W (S (tick s)) (Rag.model self) prompt = Ret answer))
  /\ (tick s' <= tick s + 2)%nat
  /\ exists tr,
       trace s' = (trace s ++ tr)%list
       /\ (searches tr <= 1)%nat /\ (attempts tr <= 1)%nat /\ sleeps tr = [].
Proof.
  intros H.
  destruct (truthy_opt truthy_str index_name) eqn:Hi.
  - destruct index_name as [name|]; [cbn [truthy_opt] in Hi|discriminate].
    destruct (dp_search W (tick s) user_query 3 search_method name) as [docs|e] eqn:Hs.
    + destruct docs as [|d docs].
      * rewrite (query_no_docs W self user_query search_method name s Hi Hs) in H.
        inversion H; subst. split; [left; auto|].
        split; [simpl; lia|]. eexists. split; [reflexivity | simpl; repeat split; lia].
      * destruct (ollama_chat W (S (tick s)) (Rag.model self)
                    (Rag.get_prompt user_query (d :: docs))) as [a|e] eqn:Hc.
        -- rewrite (query_answer W self user_query search_method name s (d :: docs) a
                      Hi Hs ltac:(discriminate) Hc) in H.
           inversion H; subst. split.
           ++ right. split; [apply get_prompt_nonempty|].
              exists name, (d :: docs). repeat split; auto. discriminate.
           ++ split; [simpl; lia|]. eexists. split; [reflexivity | simpl; repeat split; lia].
        -- rewrite (query_model_error W self user_query search_method name s (d :: docs) e
                      Hi Hs ltac:(discriminate) Hc) in H.
           inversion H; subst. split; [left; split; [reflexivity | right; eexists; reflexivity]|].
           split; [simpl; lia|]. eexists. split; [reflexivity | simpl; repeat split; lia].
    + rewrite (query_search_error W self user_query search_method name s e Hi Hs) in H.
      inversion H; subst. split; [left; split; [reflexivity | right; eexists; reflexivity]|].
      split; [simpl; lia|]. eexists. split; [reflexivity | simpl; repeat split; lia].
  - rewrite (query_no_index W self user_query search_method index_name s Hi) in H.
    inversion H; subst. split; [left; split; [reflexivity | right; eexists; reflexivity]|].
    split; [simpl; lia|]. eexists. split; [reflexivity | simpl; repeat split; lia].
Qed.

Lemma query_prompt_tells_witness :
  exists docs,
    dp_search Scenario.one_passage 0 Scenario.bee_question 3 "hybrid" Scenario.abc_index
      = Ret docs
    /\ ollama_chat Scenario.one_passage 1 "phi3" (Rag.get_prompt Scenario.bee_question docs)
       = Ret "ok".
Proof.
  destruct (query_prompt_tells Scenario.one_passage Rag.default_rag Scenario.bee_question
              "hybrid" (Some Scenario.abc_index) Scenario.start
              (snd (Rag.query Scenario.one_passage Rag.default_rag Scenario.bee_question
                      "hybrid" (Some Scenario.abc_index) Scenario.start))
              "ok" (Rag.get_prompt Scenario.bee_question Scenario.bees))
    as ([(Hempty & _) | (_ & name & docs & Hname & Hs & _ & Hp & Hc)] & _).
  - vm_compute. reflexivity.
  - discriminate Hempty.
  - exists docs. split; [inversion Hname; subst; exact Hs|].
    rewrite <- Hp. exact Hc.
Defined.

(** ** Indexing: the build path *)

Ltac split_outcomes H :=
  repeat match type of H with
         | context [match ?x with _ => _ end] =>
             lazymatch x with
             | context [match _ with _ => _ end] => fail
             | _ => destruct x eqn:?; cbn [tick trace fst snd negb] in H
             end
         end.

Lemma ascii_lower_app (a b : string) :
  ascii_lower (a ++ b) = ascii_lower a ++ ascii_lower b.
Proof. induction a as [|c a IH]; simpl; [reflexivity | now rewrite IH]. Qed.

Lemma is_ascii_app (a b : string) :
  is_ascii (a ++ b) = (is_ascii a && is_ascii b)%bool.
Proof.
  induction a as [|c a IH]; simpl; [reflexivity|].
  now rewrite IH, andb_assoc.
Qed.

Lemma lower_ascii_char_idem (c : ascii) :
  lower_ascii_char (lower_ascii_char c) = lower_ascii_char c.
Proof.
  unfold lower_ascii_char.
  destruct (Nat.leb 65 (nat_of_ascii c) && Nat.leb (nat_of_ascii c) 90)%bool eqn:Hc.
  - apply andb_true_iff in Hc as [H1 H2].
    apply Nat.leb_le in H1. apply Nat.leb_le in H2.
    rewrite nat_ascii_embedding by lia.
    destruct (Nat.leb 65 (nat_of_ascii c + 32)
              && Nat.leb (nat_of_ascii c + 32) 90)%bool eqn:Hc'; [|reflexivity].
    apply andb_true_iff in Hc' as [_ H3]. apply Nat.leb_le in H3. lia.
  - now rewrite Hc.
Qed.

Lemma ascii_lower_idem (x : string) : ascii_lower (ascii_lower x) = ascii_lower x.
Proof.
  induction x as [|c x IH]; [reflexivity|].
  cbn [ascii_lower]. now rewrite IH, lower_ascii_char_idem.
Qed.

Lemma is_ascii_lower (x : string) : is_ascii x = true -> is_ascii (ascii_lower x) = true.
Proof.
  induction x as [|c x IH]; [reflexivity|].
  cbn [is_ascii ascii_lower]. intros H. apply andb_true_iff in H as [Hc Hx].
  rewrite (IH Hx), andb_true_r.
  unfold lower_ascii_char.
  destruct (Nat.leb 65 (nat_of_ascii c) && Nat.leb (nat_of_ascii c) 90)%bool eqn:Hr;
    [|exact Hc].
  apply andb_true_iff in Hr as [H1 H2].
  apply Nat.leb_le in H1. apply Nat.leb_le in H2.
  rewrite nat_ascii_embedding by lia. apply Nat.ltb_lt. lia.
Qed.

(** The name requested for a pair of ASCII texts. *)
Lemma requested_index_name_ascii (W : World) (video_id embedding_model : string) :
  lowers_ascii W ->
  is_ascii video_id = true -> is_ascii embedding_model = true ->
  requested_index_name W video_id embedding_model
    = "video_" ++ ascii_lower video_id ++ "_" ++ ascii_lower embedding_model
  /\ is_ascii (requested_index_name W video_id embedding_model) = true.
Proof.
  intros HW Hv Hm. unfold requested_index_name.
  assert (Hall : is_ascii ("video_" ++ video_id ++ "_" ++ embedding_model) = true).
  { rewrite !is_ascii_app, Hv, Hm. reflexivity. }
  rewrite (HW _ Hall). split.
  - now rewrite !ascii_lower_app.
  - now apply is_ascii_lower.
Qed.

(** X6.  [process_single_video] registers only what it built.  In every
    run, an index record is written only after the data processor was
    asked to build the lower-cased name [video_<id>_<model>]; the
    handle in that record is what the data processor returned for this
    build during the run (a name, or [None] when [build_index] returned
    nothing), and it is also what the function then returns, unless the
    registry write itself raises.  So a result of [None] comes either
    with no index record at all or with a record whose handle is the
    [None] that [build_index] returned.  A returned name was either
    found in the registry, with no rebuild step at all, or registered
    by this call. *)
Theorem process_single_video_registers_what_it_built
  (W : World) (video_id embedding_model : string) (s s' : State)
  (r : outcome (option string)) :
  Main.process_single_video W video_id embedding_model s = (r, s') ->
  exists tr,
    trace s' = (trace s ++ tr)%list
    /\ (forall video_db_id handle model_id,
          In (AddIndex video_db_id handle model_id) tr ->
          In (BuildIndex (requested_index_name W video_id embedding_model)) tr
          /\ (exists t, (tick s <= t < tick s')%nat
                /\ dp_build_index W t (requested_index_name W video_id embedding_model)
                   = Ret handle)
          /\ (r = Ret handle \/ exists e, r = Raise e))
    /\ (forall name,
          r = Ret (Some name) ->
          existsb is_rebuild tr = false
          \/ exists video_db_id model_id, In (AddIndex video_db_id (Some name) model_id) tr).
Proof.
  intros H.
  unfold Main.process_single_video, Main.build_and_register, Main.and_then,
    bind, try_except, call, emit, ret in H.
  cbn [tick trace fst snd] in H.
  split_outcomes H.
  all: inversion H; subst; clear H.
  all: cbn [tick trace]; rewrite <- ?app_assoc; cbn [app].
  all: eexists; split; [reflexivity|].
  all: unfold requested_index_name.
  all: split.
  all: try (intros video_db_id handle model_id Hin; simpl in Hin;
            repeat match goal with
                   | Hx : _ \/ _ |- _ => destruct Hx as [Hx | Hx]
                   end; try discriminate; try contradiction;
            (inversion Hin; subst;
             (split; [simpl; tauto|]);
             (split; [eexists; (split; [|eassumption]); lia | eauto]))).
  all: intros name Hr; inversion Hr; subst.
  all: try (left; reflexivity).
  all: right; do 2 eexists; simpl; tauto.
Qed.

Lemma process_single_video_registers_what_it_built_witness :
  exists tr,
    trace (snd (Main.process_single_video bee_library "aBc" "all-MiniLM-L6-v2"
                  Scenario.start)) = tr
    /\ In (BuildIndex "video_abc_all-minilm-l6-v2") tr.
Proof.
  destruct (process_single_video_registers_what_it_built bee_library
              "aBc" "all-MiniLM-L6-v2" Scenario.start
              (snd (Main.process_single_video bee_library "aBc" "all-MiniLM-L6-v2"
                      Scenario.start))
              (Ret (Some "video_abc_all-minilm-l6-v2")))
    as (tr & Htr & Hadd & Hret).
  - vm_compute. reflexivity.
  - exists tr. split; [exact Htr|].
    destruct (Hret "video_abc_all-minilm-l6-v2" eq_refl) as [Hno | (dbid & mid & Hin)].
    + exfalso. simpl in Htr. rewrite <- Htr in Hno. vm_compute in Hno. discriminate Hno.
    + exact (proj1 (Hadd dbid _ mid Hin)).
Defined.

(** The name in every build request of a run. *)
Lemma process_single_video_build_request
  (W : World) (video_id embedding_model : string) (s s' : State)
  (r : outcome (option string)) :
  Main.process_single_video W video_id embedding_model s = (r, s') ->
  exists tr,
    trace s' = (trace s ++ tr)%list
    /\ forall name, In (BuildIndex name) tr ->
                    name = requested_index_name W video_id embedding_model.
Proof.
  intros H.
  unfold Main.process_single_video, Main.build_and_register, Main.and_then,
    bind, try_except, call, emit, ret in H.
  cbn [tick trace fst snd] in H.
  split_outcomes H.
  all: inversion H; subst; clear H.
  all: cbn [tick trace]; rewrite <- ?app_assoc; cbn [app].
  all: eexists; split; [reflexivity|].
  all: intros name Hin; simpl in Hin.
  all: repeat match goal with
              | Hx : _ \/ _ |- _ => destruct Hx as [Hx | Hx]
              end; try discriminate; try contradiction.
  all: inversion Hin; reflexivity.
Qed.

(** X7.  Index names ignore letter case, for ids and model names
    written in ASCII (as YouTube video ids are), on which [str.lower]
    maps A to Z to a to z and keeps every other character.  If two such
    video ids, and two such model names, differ only in the case of
    their letters, the index name that [process_single_video] asks to
    build for the one pair is the name it would ask for the other; the
    name asked for is already in lower case. *)
Theorem index_name_ignores_case
  (W : World) (v1 v2 m1 m2 : string) (s s' : State) (r : outcome (option string))
  (tr : list event) (name : string) :
  lowers_ascii W ->
  is_ascii v1 = true -> is_ascii v2 = true ->
  is_ascii m1 = true -> is_ascii m2 = true ->
  ascii_lower v1 = ascii_lower v2 ->
  ascii_lower m1 = ascii_lower m2 ->
  Main.process_single_video W v1 m1 s = (r, s') ->
  trace s' = (trace s ++ tr)%list ->
  In (BuildIndex name) tr ->
  name = requested_index_name W v2 m2 /\ str_lower W name = name.
Proof.
  intros HW Hv1 Hv2 Hm1 Hm2 Hv Hm Hrun Htr Hin.
  destruct (process_single_video_build_request W v1 m1 s s' r Hrun) as (tr0 & Htr0 & Hreq).
  rewrite Htr in Htr0. apply app_inv_head in Htr0. subst tr0.
  rewrite (Hreq name Hin).
  destruct (requested_index_name_ascii W v1 m1 HW Hv1 Hm1) as [H1 Ha1].
  destruct (requested_index_name_ascii W v2 m2 HW Hv2 Hm2) as [H2 _].
  split.
  - now rewrite H1, H2, Hv, Hm.
  - rewrite (HW _ Ha1). unfold requested_index_name.
    rewrite HW by (rewrite !is_ascii_app, Hv1, Hm1; reflexivity).
    apply ascii_lower_idem.
Qed.

Lemma index_name_ignores_case_witness :
  "video_abc_all-minilm-l6-v2" = requested_index_name bee_library "abc" "ALL-minilm-L6-V2".
Proof.
  refine (proj1 (index_name_ignores_case bee_library "aBc" "abc"
                   "all-MiniLM-L6-v2" "ALL-minilm-L6-V2" Scenario.start
                   (snd (Main.process_single_video bee_library "aBc" "all-MiniLM-L6-v2"
                           Scenario.start))
                   (fst (Main.process_single_video bee_library "aBc" "all-MiniLM-L6-v2"
                           Scenario.start))
                   (trace (snd (Main.process_single_video bee_library "aBc"
                                  "all-MiniLM-L6-v2" Scenario.start)))
                   "video_abc_all-minilm-l6-v2" _ _ _ _ _ _ _ _ _ _)).
  - intros x _. reflexivity.
  - reflexivity.
  - reflexivity.
  - reflexivity.
  - reflexivity.
  - reflexivity.
  - reflexivity.
  - apply surjective_pairing.
  - reflexivity.
  - vm_compute. do 4 right. left. reflexivity.
Defined.

(** X8.  The build path of [process_single_video], when no usable index
    is registered.  If the transcript is unavailable, the function
    returns [None] after the fetch: no video row, no chunks, no index
    and no registry record are written.  If every step succeeds, the
    steps run in the order fetch, store video, process transcript,
    build, register model, look up the video row, register index; the
    handle that is registered and returned is what the data processor
    returned for the build (a name, or [None]). *)
Theorem process_single_video_build_path
  (W : World) (video_id embedding_model : string) (s : State)
  (existing : option string) :
  db_get_index W (tick s) video_id embedding_model = Ret existing ->
  usable existing = false ->
  (get_transcript W (S (tick s)) video_id = Ret None ->
   Main.process_single_video W video_id embedding_model s
     = (Ret None,
        mkState (2 + tick s)
          (trace s ++ [GetIndex video_id embedding_model;
                       GetTranscript video_id;
                       Log ERROR ("Failed to retrieve transcript for video " ++ video_id)])))
  /\ (forall td built model_id video_db_id,
        get_transcript W (S (tick s)) video_id = Ret (Some td) ->
        db_add_video W (2 + tick s) (Main.video_data_of video_id (td_metadata td)) = Ret tt ->
        dp_process_transcript W (3 + tick s) video_id td = Ret tt ->
        dp_build_index W (4 + tick s) (requested_index_name W video_id embedding_model)
          = Ret built ->
        db_add_embedding_model W (5 + tick s) embedding_model "Description of the model"
          = Ret model_id ->
        db_get_video W (6 + tick s) video_id = Ret (Some video_db_id) ->
        db_add_index W (7 + tick s) video_db_id built model_id = Ret tt ->
        Main.process_single_video W video_id embedding_model s
          = (Ret built,
             mkState (8 + tick s)
               (trace s ++ [GetIndex video_id embedding_model;
                            GetTranscript video_id;
                            AddVideo (Main.video_data_of video_id (td_metadata td));
                            ProcessTranscript video_id;
                            BuildIndex (requested_index_name W video_id embedding_model);
                            Log INFO ("Successfully built index: " ++ Main.str_opt built);
                            AddEmbeddingModel embedding_model "Description of the model";
                            GetVideo video_id;
                            AddIndex video_db_id built model_id;
                            Log INFO ("Processed and indexed transcript for video "
                                      ++ video_id)]))).
Proof.
  intros Hget Hno. unfold usable in Hno. split.
  - intros Htr.
    unfold Main.process_single_video, Main.build_and_register, bind, call, emit, ret.
    rewrite Hget. cbn [tick trace]. rewrite Hno. cbn [tick trace].
    rewrite Htr. cbn [tick trace]. now rewrite <- !app_assoc.
  - intros td built model_id video_db_id Htr Hadd Hproc Hbuild Hmodel Hvideo Hindex.
    unfold requested_index_name in *.
    cbn [Nat.add] in Hadd, Hproc, Hbuild, Hmodel, Hvideo, Hindex.
    unfold Main.process_single_video, Main.build_and_register, Main.and_then,
      bind, try_except, call, emit, ret.
    rewrite Hget. cbn [tick trace]. rewrite Hno. cbn [tick trace].
    rewrite Htr. cbn [tick trace].
    rewrite Hadd. cbn [tick trace]. rewrite Hproc. cbn [tick trace].
    rewrite Hbuild. cbn [tick trace]. rewrite Hmodel. cbn [tick trace].
    rewrite Hvideo. cbn [tick trace]. rewrite Hindex. cbn [tick trace].
    now rewrite <- !app_assoc.
Qed.

Lemma process_single_video_build_path_witness :
  fst (Main.process_single_video Scenario.idle "abc" "all-MiniLM-L6-v2" Scenario.start)
    = Ret None
  /\ fst (Main.process_single_video bee_library "aBc" "all-MiniLM-L6-v2" Scenario.start)
       = Ret (Some "video_abc_all-minilm-l6-v2").
Proof.
  split.
  - destruct (process_single_video_build_path Scenario.idle "abc" "all-MiniLM-L6-v2"
                Scenario.start None eq_refl eq_refl) as [H _].
    now rewrite (H eq_refl).
  - destruct (process_single_video_build_path bee_library "aBc" "all-MiniLM-L6-v2"
                Scenario.start None eq_refl eq_refl) as [_ H].
    now rewrite (H bee_video (Some "video_abc_all-minilm-l6-v2") 1 1
                   eq_refl eq_refl eq_refl eq_refl eq_refl eq_refl eq_refl).
Defined.

(** ** process_multiple_videos *)

Lemma process_single_video_existing
  (W : World) (video_id embedding_model name : string) (s : State) :
  db_get_index W (tick s) video_id embedding_model = Ret (Some name) ->
  truthy_str name = true ->
  Main.process_single_video W video_id embedding_model s
    = (Ret (Some name),
       mkState (S (tick s))
         (trace s ++ [GetIndex video_id embedding_model;
                      Log INFO ("Video " ++ video_id ++ " has already been processed with "
                                ++ embedding_model ++ ". Using existing index: " ++ name)])).
Proof.
  intros Hget Hname.
  unfold Main.process_single_video, bind, call, emit, ret.
  rewrite Hget. cbn [truthy_opt tick trace]. rewrite Hname.
  cbn [Main.str_opt tick trace]. now rewrite <- app_assoc.
Qed.

Lemma process_loop_bound (W : World) (embedding_model : string) (video_ids : list string) :
  forall (indices result : list string) (s s' : State),
  Main.process_loop W embedding_model video_ids indices s = (Ret result, s') ->
  exists added,
    result = (indices ++ added)%list
    /\ (List.length added <= List.length video_ids)%nat
    /\ Forall (fun name => truthy_str name = true) added.
Proof.
  induction video_ids as [|v ids IH]; intros indices result s s' H; simpl in H.
  - inversion H; subst. exists []. rewrite app_nil_r. repeat split; auto.
  - apply bind_inv_Ret in H as (index & s1 & _ & H).
    apply IH in H as (added & -> & Hlen & Hall).
    destruct index as [name|]; [destruct (truthy_str name) eqn:Hn|].
    + exists (name :: added). rewrite <- app_assoc.
      split; [reflexivity|]. split; [simpl; lia | now constructor].
    + exists added. split; [reflexivity|]. split; [simpl; lia | assumption].
    + exists added. split; [reflexivity|]. split; [simpl; lia | assumption].
Qed.

(** X9.  [process_multiple_videos] returns at most one handle per video
    id, every returned handle is a non-empty name, and the number it
    reports in its log line and success message is the number of
    handles it returns. *)
Theorem process_multiple_videos_bound
  (W : World) (video_ids : list string) (embedding_model : string) (s s' : State)
  (indices : list string) :
  Main.process_multiple_videos W video_ids embedding_model s = (Ret indices, s') ->
  (List.length indices <= List.length video_ids)%nat
  /\ Forall (fun name => truthy_str name = true) indices
  /\ exists tr,
       trace s' =
         (tr ++ [Log INFO ("Processed and indexed transcripts for "
                           ++ str_nat (List.length indices) ++ " videos");
                 StSuccess ("Processed and indexed transcripts for "
                            ++ str_nat (List.length indices) ++ " videos")])%list.
Proof.
  intros H. unfold Main.process_multiple_videos in H.
  apply bind_inv_Ret in H as (result & s1 & Hloop & H).
  unfold bind, emit, ret in H. cbn [tick trace] in H. inversion H; subst. clear H.
  apply process_loop_bound in Hloop as (added & Heq & Hlen & Hall).
  simpl in Heq. subst. repeat split; auto.
  exists (trace s1). now rewrite <- app_assoc.
Qed.

Lemma process_multiple_videos_bound_witness :
  (List.length
     (match fst (Main.process_multiple_videos bee_library ["aBc"; "xyz"]
                   "all-MiniLM-L6-v2" Scenario.start) with
      | Ret l => l
      | Raise _ => []
      end) <= 2)%nat.
Proof.
  refine (proj1 (process_multiple_videos_bound bee_library ["aBc"; "xyz"]
                   "all-MiniLM-L6-v2" Scenario.start
                   (snd (Main.process_multiple_videos bee_library ["aBc"; "xyz"]
                           "all-MiniLM-L6-v2" Scenario.start)) _ _)).
  vm_compute. reflexivity.
Defined.

Lemma process_loop_all_indexed
  (W : World) (embedding_model : string) (f : string -> string) (video_ids : list string) :
  (forall t v, In v video_ids ->
               db_get_index W t v embedding_model = Ret (Some (f v))
               /\ truthy_str (f v) = true) ->
  forall (indices : list string) (s : State),
  exists tr,
    Main.process_loop W embedding_model video_ids indices s
      = (Ret (indices ++ map f video_ids)%list,
         mkState (tick s + List.length video_ids) (trace s ++ tr))
    /\ existsb is_rebuild tr = false.
Proof.
  induction video_ids as [|v ids IH]; intros Hall indices s.
  - exists []. simpl. unfold ret. rewrite Nat.add_0_r, !app_nil_r.
    destruct s; auto.
  - destruct (Hall (tick s) v (or_introl eq_refl)) as [Hget Hname].
    cbn [Main.process_loop].
    erewrite bind_Ret by (apply process_single_video_existing; eassumption).
    cbv beta iota. rewrite Hname.
    match goal with |- context [Main.process_loop _ _ _ ?acc ?s1] =>
      destruct (IH (fun t v' Hin => Hall t v' (or_intror Hin)) acc s1)
        as (tr & Hrun & Hno) end.
    exists (GetIndex v embedding_model
            :: Log INFO ("Video " ++ v ++ " has already been processed with "
                         ++ embedding_model ++ ". Using existing index: " ++ f v)
            :: tr).
    split.
    + rewrite Hrun. cbn [tick trace map List.length]. rewrite <- !app_assoc. cbn [app].
      replace (S (tick s) + List.length ids)%nat with (tick s + S (List.length ids))%nat
        by lia.
      reflexivity.
    + cbn [existsb is_rebuild orb]. exact Hno.
Qed.

(** X10.  A batch over videos that are all indexed already is a pure
    lookup: [process_multiple_videos] returns the registered handle of
    every video, in the order of the ids, after one registry lookup per
    video and without any transcript fetch, build or registry write. *)
Theorem process_multiple_videos_all_indexed
  (W : World) (video_ids : list string) (embedding_model : string)
  (f : string -> string) (s : State) :
  (forall t v, In v video_ids ->
               db_get_index W t v embedding_model = Ret (Some (f v))
               /\ truthy_str (f v) = true) ->
  exists tr,
    Main.process_multiple_videos W video_ids embedding_model s
      = (Ret (map f video_ids),
         mkState (tick s + List.length video_ids) (trace s ++ tr))
    /\ existsb is_rebuild tr = false.
Proof.
  intros Hall.
  destruct (process_loop_all_indexed W embedding_model f video_ids Hall [] s)
    as (tr & Hrun & Hno).
  eexists. split.
  - unfold Main.process_multiple_videos. erewrite bind_Ret by exact Hrun.
    unfold bind, emit, ret. cbn [tick trace app]. rewrite <- !app_assoc.
    reflexivity.
  - rewrite existsb_app, Hno. reflexivity.
Qed.

Lemma process_multiple_videos_all_indexed_witness :
  fst (Main.process_multiple_videos (Scenario.indexed Scenario.idle) ["abc"; "xyz"]
         "all-MiniLM-L6-v2" Scenario.start)
    = Ret [Scenario.abc_index; Scenario.abc_index].
Proof.
  destruct (process_multiple_videos_all_indexed (Scenario.indexed Scenario.idle)
              ["abc"; "xyz"] "all-MiniLM-L6-v2" (fun _ => Scenario.abc_index)
              Scenario.start) as (tr & Hrun & _).
  - intros t v _. split; reflexivity.
  - now rewrite Hrun.
Defined.

(** ** evaluate_rag: the ground-truth file *)

(** X11.  When the ground-truth file cannot be read, [evaluate_rag]
    samples nothing, calls no model and stores nothing.  A
    [FileNotFoundError] is logged, shown, and turned into the result
    [None]; any other error of the read is raised to the caller. *)
Theorem evaluate_rag_unreadable_file
  (W : World) (rag : Rag.RAGSystem) (sample_size : Z) (s : State) (e : exn) :
  read_csv W (tick s) Main.gt_path = Raise e ->
  Main.evaluate_rag W rag sample_size s =
    if is_FileNotFoundError e then
      (Ret None,
       mkState (S (tick s))
         (trace s ++ [ReadCsv Main.gt_path;
                      Log ERROR "Ground truth file not found. Please generate ground truth data first.";
                      StError "Ground truth file not found. Please generate ground truth data first."]))
    else
      (Raise e, mkState (S (tick s)) (trace s ++ [ReadCsv Main.gt_path])).
Proof.
  intros H.
  unfold Main.evaluate_rag, Main.load_ground_truth, bind, try_except, call, emit, ret, raise.
  rewrite H. destruct (is_FileNotFoundError e); cbn [tick trace].
  - now rewrite <- !app_assoc.
  - reflexivity.
Qed.

Lemma evaluate_rag_unreadable_file_witness :
  fst (Main.evaluate_rag Scenario.idle Rag.default_rag 200 Scenario.start) = Ret None.
Proof.
  now rewrite (evaluate_rag_unreadable_file Scenario.idle Rag.default_rag 200 Scenario.start
                 (mkExn FileNotFoundError "No such file or directory") eq_refl).
Defined.

(** ** evaluate_rag: records against the sample *)

Lemma subseq_length {A : Type} (l l' : list A) :
  subseq l l' -> (List.length l <= List.length l')%nat.
Proof. induction 1; simpl; lia. Qed.

Section Records.

Variable W : World.
Variable rag : Rag.RAGSystem.

(** One item adds nothing, or one record about that item whose answer
    is what [query] returned. *)
Lemma evaluate_item_appends (i total : nat) (row : gt_row)
  (evaluations evaluations' : list eval_record) (s s' : State) :
  Main.evaluate_item W rag i total row evaluations s = (Ret evaluations', s') ->
  evaluations' = evaluations
  \/ exists x, evaluations' = (evaluations ++ [x])%list /\ item_of x = row.
Proof.
  intros H. unfold Main.evaluate_item in H. cbv zeta in H.
  apply bind_inv_Ret in H as (index_name & s1 & _ & H).
  destruct (negb (truthy_opt truthy_str index_name)).
  - inversion H; subst. now left.
  - apply bind_inv_Ret in H as (r & s2 & _ & H).
    destruct r as [answer|]; [|inversion H; subst; now left].
    apply bind_inv_Ret in H as (evs & s3 & Hj & H).
    inversion H; subst evaluations'.
    apply try_inv_Ret in Hj as [Hj | (e & s4 & _ & Hj)].
    + apply bind_inv_Ret in Hj as (x & s4 & Hx & Hj).
      inversion Hj; subst evs. right. exists x. split; [reflexivity|].
      destruct (judge_label W _ _ _ _ _ _ Hx) as (_ & Hv & Hq & _).
      unfold item_of. rewrite Hv, Hq. now destruct row.
    + inversion Hj; subst. now left.
Qed.

Lemma evaluate_loop_subseq (total : nat) (sample : list (nat * gt_row)) :
  forall (i : nat) (evaluations evaluations' : list eval_record) (s s' : State),
  Main.evaluate_loop W rag i total sample evaluations s = (Ret evaluations', s') ->
  exists added,
    evaluations' = (evaluations ++ added)%list
    /\ subseq (map item_of added) (map snd sample).
Proof.
  induction sample as [|[pos row] sample IH]; intros i evs evs' s s' H; simpl in H.
  - inversion H; subst. exists []. rewrite app_nil_r. split; [reflexivity | constructor].
  - apply bind_inv_Ret in H as (evs1 & s1 & Hitem & H).
    apply IH in H as (added & -> & Hsub).
    apply evaluate_item_appends in Hitem as [-> | (x & -> & Hx)].
    + exists added. split; [reflexivity|]. simpl. now apply subseq_skip.
    + exists (x :: added). rewrite <- app_assoc. split; [reflexivity|].
      simpl. rewrite Hx. now apply subseq_keep.
Qed.

End Records.

(** X12.  The records of an evaluation run follow the sample: whenever
    [evaluate_rag] returns records, the file was read, a sample was
    drawn from it with [n = min(sample_size, len)] and seed 1, and the
    (video id, question) pairs of the records are the sampled rows in
    sample order with some rows left out.  So there is at most one
    record per sampled row. *)
Theorem evaluation_records_follow_sample
  (W : World) (rag : Rag.RAGSystem) (sample_size : Z) (s s' : State)
  (records : list eval_record) :
  Main.evaluate_rag W rag sample_size s = (Ret (Some records), s') ->
  exists ground_truth sample,
    read_csv W (tick s) Main.gt_path = Ret ground_truth
    /\ Main.draw_sample W ground_truth sample_size = Ret sample
    /\ subseq (map item_of records) (map snd sample)
    /\ (List.length records <= List.length sample)%nat.
Proof.
  intros H. unfold Main.evaluate_rag in H.
  apply bind_inv_Ret in H as (loaded & s1 & Hload & H).
  destruct loaded as [ground_truth|]; [|inversion H].
  apply bind_inv_Ret in H as (sample & s2 & Hdraw & H).
  apply lift_inv_Ret in Hdraw as [Hdraw ->].
  unfold Main.evaluate_sample in H.
  apply bind_inv_Ret in H as ([] & s3 & _ & H).
  apply bind_inv_Ret in H as (evaluations & s4 & Hloop & H).
  apply bind_inv_Ret in H as ([] & s5 & _ & H).
  inversion H; subst records. clear H.
  apply evaluate_loop_subseq in Hloop as (added & Heq & Hsub).
  simpl in Heq. subst evaluations.
  exists ground_truth, sample. repeat split; auto.
  - unfold Main.load_ground_truth, try_except, bind, call, ret in Hload.
    destruct (read_csv W (tick s) Main.gt_path) as [g|e]; cbn in Hload.
    + now inversion Hload.
    + destruct (is_FileNotFoundError e); cbn in Hload; discriminate Hload.
  - apply subseq_length in Hsub. now rewrite !length_map in Hsub.
Qed.

Lemma evaluation_records_follow_sample_witness :
  exists sample,
    Main.draw_sample mixed_run mixed_rows 200 = Ret sample
    /\ subseq [("abc", "How do bees show direction?");
                ("abc", "What does the waggle dance indicate?")]
              (map snd sample).
Proof.
  destruct (evaluation_records_follow_sample mixed_run Rag.default_rag 200 Scenario.start
              (snd (Main.evaluate_rag mixed_run Rag.default_rag 200 Scenario.start))
              [mkEval "abc" "How do bees show direction?" "By the waggle dance."
                 "NON_RELEVANT" "The answer is an error message.";
               mkEval "abc" "What does the waggle dance indicate?" "By the waggle dance."
                 "NON_RELEVANT" "The answer is an error message."])
    as (g & sample & Hread & Hdraw & Hsub & _).
  - vm_compute. reflexivity.
  - exists sample. split; [|exact Hsub].
    vm_compute in Hread. inversion Hread; subst g. exact Hdraw.
Defined.

(** ** evaluate_rag: with a judge that always answers with an object *)

Section ObjectJudge.

Variable W : World.
Variable rag : Rag.RAGSystem.

(** The registry answers every lookup, the same way at all times. *)
Variable idx : string -> option string.
Hypothesis registry :
  forall t video_id, db_get_index W t video_id Main.eval_embedding_model = Ret (idx video_id).

(** The judge model replies to every prompt with a text that parses
    to a JSON object. *)
Hypothesis object_judge :
  forall t prompt, exists text items,
    ollama_chat W t Main.judge_model prompt = Ret text
    /\ json_loads W text = Ret (JDict items).

Lemma judge_returns (video_id question answer : string) (s : State) :
  exists x s',
    Main.judge W video_id question answer s = (Ret x, s')
    /\ item_of x = (video_id, question) /\ ev_answer x = answer.
Proof.
  destruct (object_judge (tick s) (Main.judge_prompt question answer))
    as (text & items & Hchat & Hparse).
  unfold Main.judge, bind, call, lift, ret. cbv zeta. rewrite Hchat.
  cbn [tick trace]. rewrite Hparse. cbn [get]. do 2 eexists. split; [reflexivity|].
  split; reflexivity.
Qed.

Lemma evaluate_item_indexed (i total : nat) (row : gt_row)
  (evaluations : list eval_record) (s : State) :
  usable (idx (fst row)) = true ->
  exists x s',
    Main.evaluate_item W rag i total row evaluations s = (Ret (evaluations ++ [x])%list, s')
    /\ item_of x = row.
Proof.
  intros Hu. unfold usable in Hu. unfold Main.evaluate_item. cbv zeta.
  erewrite bind_Ret by (unfold call; rewrite registry; reflexivity).
  rewrite Hu. cbn [negb].
  match goal with |- context [bind (try_except ?m ?h) _ ?s0] =>
    destruct (query_handler_unreachable W rag (snd row) (idx (fst row)) h s0)
      as (answer & prompt & s1 & _ & Hq) end.
  erewrite bind_Ret by exact Hq.
  destruct (judge_returns (fst row) (snd row) answer s1) as (x & s2 & Hj & Hx & _).
  erewrite bind_Ret
    by (apply try_Ret; erewrite bind_Ret by exact Hj; reflexivity).
  exists x. eexists. split; [reflexivity|]. rewrite Hx. now destruct row.
Qed.

Lemma evaluate_loop_one_per_indexed (total : nat) (sample : list (nat * gt_row)) :
  forall (i : nat) (evaluations : list eval_record) (s : State),
  exists added s',
    Main.evaluate_loop W rag i total sample evaluations s
      = (Ret (evaluations ++ added)%list, s')
    /\ map item_of added
       = filter (fun row => usable (idx (fst row))) (map snd sample).
Proof.
  induction sample as [|[pos row] sample IH]; intros i evs s.
  - exists [], s. simpl. unfold ret. now rewrite app_nil_r.
  - cbn [Main.evaluate_loop map filter snd].
    destruct (usable (idx (fst row))) eqn:Hu.
    + destruct (evaluate_item_indexed i total row evs s Hu) as (x & s1 & Hitem & Hx).
      erewrite bind_Ret by exact Hitem.
      destruct (IH (S i) (evs ++ [x])%list s1) as (added & s' & Hrun & Hmap).
      exists (x :: added), s'. rewrite Hrun, <- app_assoc. split; [reflexivity|].
      simpl. now rewrite Hx, Hmap.
    + erewrite bind_Ret
        by (apply (evaluate_item_without_index W rag i total row evs (idx (fst row)) s);
            [apply registry | exact Hu]).
      apply IH.
Qed.

End ObjectJudge.

(** X13.  With a registry that answers every lookup, a judge whose
    every reply parses to a JSON object, and a store that accepts the
    rows, an evaluation run over a drawn sample returns exactly one
    record per sampled row whose video has a usable index, in sample
    order, and none for the other rows; this holds whether or not the
    row's query succeeded. *)
Theorem evaluation_one_record_per_indexed_row
  (W : World) (rag : Rag.RAGSystem) (idx : string -> option string)
  (sample : list (nat * gt_row)) (s : State) :
  (forall t video_id,
      db_get_index W t video_id Main.eval_embedding_model = Ret (idx video_id)) ->
  (forall t prompt, exists text items,
      ollama_chat W t Main.judge_model prompt = Ret text
      /\ json_loads W text = Ret (JDict items)) ->
  (forall t rows, store_evaluations W t rows = Ret tt) ->
  exists records s',
    Main.evaluate_sample W rag sample s = (Ret (Some records), s')
    /\ map item_of records
       = filter (fun row => usable (idx (fst row))) (map snd sample)
    /\ (List.length records
        + List.length (filter (fun row => negb (usable (idx (fst row)))) (map snd sample))
        = List.length sample)%nat.
Proof.
  intros Hidx Hjudge Hstore.
  unfold Main.evaluate_sample.
  erewrite bind_Ret by reflexivity. cbv beta.
  match goal with |- context [bind (Main.evaluate_loop _ _ _ _ _ _) _ ?s0] =>
    destruct (evaluate_loop_one_per_indexed W rag idx Hidx Hjudge
                (List.length sample) sample 0%nat [] s0)
      as (added & s1 & Hloop & Hmap) end.
  erewrite bind_Ret by exact Hloop. cbn [app].
  erewrite bind_Ret by (unfold call; rewrite Hstore; reflexivity).
  do 2 eexists. split; [reflexivity|]. split; [exact Hmap|].
  rewrite <- (length_map item_of), Hmap, <- (length_map snd sample).
  generalize (map snd sample). intros l.
  induction l as [|row l IH]; [reflexivity|]. simpl.
  destruct (usable (idx (fst row))); simpl; lia.
Qed.

Lemma evaluation_one_record_per_indexed_row_witness :
  exists records,
    fst (Main.evaluate_sample mixed_run Rag.default_rag
           (Scenario.number_rows 0 mixed_rows) Scenario.start) = Ret (Some records)
    /\ map item_of records
       = [("abc", "How do bees show direction?");
          ("abc", "What does the waggle dance indicate?")].
Proof.
  destruct (evaluation_one_record_per_indexed_row mixed_run Rag.default_rag
              only_abc_index (Scenario.number_rows 0 mixed_rows) Scenario.start)
    as (records & s' & Hrun & Hmap & _).
  - intros t video_id. unfold only_abc_index. simpl. unfold only_abc.
    now destruct (String.eqb video_id "abc").
  - intros t prompt. exists Scenario.verdict_text.
    eexists. split; reflexivity.
  - intros t rows. reflexivity.
  - exists records. split; [now rewrite Hrun | exact Hmap].
Defined.

(** ** generate_ground_truth: what is written, what is shown *)

(** X14.  [generate_ground_truth] writes what it returns, and reports
    success only for a write that succeeded.  In every run: if it
    returns rows, it has made exactly one write to the ground-truth
    file, of exactly these rows, that write succeeded, the success
    message was shown, and every row carries the video id (or [custom]
    when there is none); if it returns [None], it has attempted no
    write and has shown an error message; if it raises, then either it
    has attempted no write, or its one write is what raised, and no
    success message was shown. *)
Theorem ground_truth_writes_what_it_returns
  (W : World) (video_id existing_transcript : option string) (s s' : State)
  (r : outcome (option (list gt_item))) :
  Main.generate_ground_truth W video_id existing_transcript s = (r, s') ->
  exists tr,
    trace s' = (trace s ++ tr)%list
    /\ (forall df,
          r = Ret (Some df) ->
          filter is_write_csv tr = [WriteCsv Main.gt_path df]
          /\ (exists t, (tick s <= t < tick s')%nat
                        /\ write_csv W t Main.gt_path df = Ret tt)
          /\ existsb is_st_success tr = true
          /\ Forall (fun row => fst row = Main.video_label video_id) df)
    /\ (r = Ret None ->
        existsb is_write_csv tr = false /\ existsb is_st_error tr = true)
    /\ (forall e,
          r = Raise e ->
          existsb is_st_success tr = false
          /\ (existsb is_write_csv tr = false
              \/ exists df t,
                   filter is_write_csv tr = [WriteCsv Main.gt_path df]
                   /\ (tick s <= t < tick s')%nat
                   /\ write_csv W t Main.gt_path df = Raise e)).
Proof.
  intros H.
  unfold Main.generate_ground_truth, Main.resolve_transcript, Main.ground_truth_from,
    Main.generate_questions, Main.has_questions,
    bind, try_except, call, emit, ret, lift in H.
  cbn [tick trace fst snd] in H.
  split_outcomes H.
  all: inversion H; subst; clear H.
  all: cbn [tick trace]; rewrite <- ?app_assoc; cbn [app].
  all: eexists; split; [reflexivity|].
  all: split; [|split]; try discriminate.
  all: try (intros _; split; reflexivity).
  all: try (intros err Herr; inversion Herr; subst; (split; [reflexivity|]);
            first [ left; reflexivity
                  | right; do 2 eexists; (split; [reflexivity|]);
                    (split; [|eassumption]); lia ]).
  all: intros df Hdf; inversion Hdf; subst.
  all: repeat match goal with u : unit |- _ => destruct u end.
  all: split; [reflexivity|].
  all: split; [eexists; (split; [|eassumption]); lia|].
  all: split; [reflexivity|].
  all: apply Forall_forall; intros x Hin; apply in_map_iff in Hin as (q & <- & _);
    reflexivity.
Qed.

Lemma ground_truth_writes_what_it_returns_witness :
  exists tr,
    trace (snd (Main.generate_ground_truth
                  (Scenario.question_writer Scenario.two_questions_text)
                  None (Some Scenario.bee_transcript) Scenario.start)) = tr
    /\ filter is_write_csv tr
       = [WriteCsv Main.gt_path
            [("custom", JStr "How do bees communicate?");
             ("custom", JStr "What does the waggle dance indicate?")]].
Proof.
  destruct (ground_truth_writes_what_it_returns
              (Scenario.question_writer Scenario.two_questions_text)
              None (Some Scenario.bee_transcript) Scenario.start
              (snd (Main.generate_ground_truth
                      (Scenario.question_writer Scenario.two_questions_text)
                      None (Some Scenario.bee_transcript) Scenario.start))
              (Ret (Some [("custom", JStr "How do bees communicate?");
                          ("custom", JStr "What does the waggle dance indicate?")])))
    as (tr & Htr & Hsome & _).
  - vm_compute. reflexivity.
  - exists tr. split; [exact Htr|]. exact (proj1 (Hsome _ eq_refl)).
Defined.

(** X15.  Which transcript [generate_ground_truth] asks about.  With a
    non-empty video id, the video's transcript is fetched and its entry
    texts joined by single spaces, and a transcript passed by the
    caller is ignored.  With an empty video id and no transcript, the
    guard against missing input does not fire and the model is asked
    about the text [None], the rows being labelled [custom].  With no
    id and no transcript at all, or with an id whose transcript is
    unavailable, no model is called. *)
Theorem ground_truth_transcript_source (W : World) (s : State) :
  (forall v texts md existing,
      truthy_str v = true ->
      get_transcript W (tick s) v = Ret (Some (mkTranscript (Some texts) md)) ->
      Main.generate_ground_truth W (Some v) existing s
        = Main.ground_truth_from W (Some v) (join " " texts)
            (mkState (S (tick s)) (trace s ++ [GetTranscript v])))
  /\ Main.generate_ground_truth W (Some EmptyString) None s
     = Main.ground_truth_from W (Some EmptyString) "None" s
  /\ Main.video_label (Some EmptyString) = "custom"
  /\ Main.generate_ground_truth W None None s
     = (Ret None,
        mkState (tick s)
          (trace s ++ [StError "Please provide either a video ID or an existing transcript."]))
  /\ (forall v existing,
        truthy_str v = true ->
        get_transcript W (tick s) v = Ret None ->
        Main.generate_ground_truth W (Some v) existing s
          = (Ret None,
             mkState (S (tick s))
               (trace s ++ [GetTranscript v;
                            Log ERROR "Failed to retrieve transcript for the provided video ID.";
                            StError "Failed to retrieve transcript for the provided video ID."]))).
Proof.
  repeat split.
  - intros v texts md existing Hv Hget.
    unfold Main.generate_ground_truth, Main.resolve_transcript, bind, call, ret.
    now rewrite Hv, Hget.
  - intros v existing Hv Hget.
    unfold Main.generate_ground_truth, Main.resolve_transcript, bind, call, emit, ret.
    rewrite Hv, Hget. cbn [tick trace]. now rewrite <- !app_assoc.
Qed.

Lemma ground_truth_transcript_source_witness :
  Main.generate_ground_truth bee_library (Some "abc") (Some "ignored text") Scenario.start
  = Main.ground_truth_from bee_library (Some "abc")
      "Bees communicate by dancing. The waggle dance indicates direction."
      (mkState 1 [GetTranscript "abc"]).
Proof.
  destruct (ground_truth_transcript_source bee_library Scenario.start) as (H & _).
  exact (H "abc" _ _ (Some "ignored text") eq_refl eq_refl).
Defined.

(** ** RAGSystem start-up *)

(** X16.  The service check made when a [RAGSystem] is built never
    raises.  If listing the models fails, the model is not pulled and
    two errors are logged; if listing succeeds, the model is pulled
    once, and a failed pull is logged as such without being reported
    as a connection problem. *)
Theorem check_ollama_service_never_raises
  (svc : Startup.Service) (self : Rag.RAGSystem) (host : string) (s : State) :
  exists tr,
    Startup.check_ollama_service svc self host s
      = (Ret tt,
         mkState (match Startup.ollama_list svc (tick s) with
                  | Ret _ => 2 + tick s
                  | Raise _ => 1 + tick s
                  end)
           (trace s ++ tr))
    /\ tr =
       match Startup.ollama_list svc (tick s) with
       | Raise e =>
           [Log ERROR ("An error occurred while connecting to Ollama: " ++ str_exn e);
            Log ERROR ("Please ensure Ollama is running and accessible at " ++ host)]
       | Ret _ =>
           [Log INFO "Ollama service is accessible.";
            match Startup.ollama_pull svc (S (tick s)) (Rag.model self) with
            | Ret _ => Log INFO ("Successfully pulled model " ++ Rag.model self ++ ".")
            | Raise e =>
                Log ERROR ("Error pulling model " ++ Rag.model self ++ ": " ++ str_exn e)
            end]
       end.
Proof.
  eexists. split; [|reflexivity].
  unfold Startup.check_ollama_service, Startup.pull_model, Startup.ask,
    bind, try_except, emit, ret.
  destruct (Startup.ollama_list svc (tick s)) as [[]|e]; cbn [tick trace].
  - destruct (Startup.ollama_pull svc (S (tick s)) (Rag.model self)) as [[]|e];
      cbn [tick trace]; now rewrite <- !app_assoc.
  - now rewrite <- !app_assoc.
Qed.

(** ** evaluate_rag: how many model calls *)

Lemma attempts_app (a b : list event) :
  attempts (a ++ b) = (attempts a + attempts b)%nat.
Proof.
  induction a as [|ev a IH]; simpl; [reflexivity|].
  destruct ev; simpl; now rewrite ?IH.
Qed.

Section Cost.

Variable W : World.
Variable rag : Rag.RAGSystem.

Lemma evaluate_item_cost (i total : nat) (row : gt_row)
  (evaluations : list eval_record) (s s' : State) (r : outcome (list eval_record)) :
  Main.evaluate_item W rag i total row evaluations s = (r, s') ->
  exists tr, trace s' = (trace s ++ tr)%list /\ (attempts tr <= 2)%nat.
Proof.
  intros H.
  unfold Main.evaluate_item, Rag.query, Main.judge,
    bind, try_except, call, emit, ret, raise, lift in H.
  cbv zeta in H. cbn [tick trace fst snd] in H.
  split_outcomes H.
  all: inversion H; subst; clear H.
  all: cbn [tick trace]; rewrite <- ?app_assoc; cbn [app].
  all: eexists; split; [reflexivity|].
  all: cbn [attempts]; lia.
Qed.

Lemma evaluate_loop_cost (total : nat) (sample : list (nat * gt_row)) :
  forall (i : nat) (evaluations : list eval_record) (s s' : State)
         (r : outcome (list eval_record)),
  Main.evaluate_loop W rag i total sample evaluations s = (r, s') ->
  exists tr,
    trace s' = (trace s ++ tr)%list /\ (attempts tr <= 2 * List.length sample)%nat.
Proof.
  induction sample as [|[pos row] sample IH]; intros i evs s s' r H.
  - inversion H; subst. exists []. now rewrite app_nil_r.
  - cbn [Main.evaluate_loop] in H. unfold bind in H.
    destruct (Main.evaluate_item W rag i total row evs s) as [[evs1|e] s1] eqn:Hitem;
      apply evaluate_item_cost in Hitem as (tr1 & Htr1 & Hc1).
    + apply IH in H as (tr2 & Htr2 & Hc2).
      exists (tr1 ++ tr2)%list. rewrite Htr2, Htr1, app_assoc. split; [reflexivity|].
      rewrite attempts_app. simpl. lia.
    + inversion H; subst. exists tr1. split; [exact Htr1 | simpl; lia].
Qed.

End Cost.

(** X17.  An evaluation run calls a model at most twice per sampled
    row (once to answer, once to judge), whatever the collaborators do
    and however the run ends; a row whose video has no usable index
    costs no model call and no search. *)
Theorem evaluation_model_calls_bounded
  (W : World) (rag : Rag.RAGSystem) (sample : list (nat * gt_row)) (s s' : State)
  (r : outcome (option (list eval_record))) :
  Main.evaluate_sample W rag sample s = (r, s') ->
  (exists tr,
      trace s' = (trace s ++ tr)%list /\ (attempts tr <= 2 * List.length sample)%nat)
  /\ (forall i total row evaluations s0 index_name,
        db_get_index W (tick s0) (fst row) Main.eval_embedding_model = Ret index_name ->
        usable index_name = false ->
        Main.evaluate_item W rag i total row evaluations s0
          = (Ret evaluations,
             mkState (S (tick s0))
               (trace s0 ++ [GetIndex (fst row) Main.eval_embedding_model;
                             Log WARNING ("No index found for video " ++ fst row
                                          ++ ". Skipping this question.")]))).
Proof.
  intros H. split.
  - unfold Main.evaluate_sample in H. unfold bind at 1 in H.
    cbn [emit tick trace] in H. unfold bind at 1 in H.
    match type of H with context [Main.evaluate_loop _ _ _ _ _ _ ?s0] =>
      destruct (Main.evaluate_loop W rag 0 (List.length sample) sample [] s0)
        as [[evs|e] s1] eqn:Hloop;
      apply evaluate_loop_cost in Hloop as (tr & Htr & Hc) end;
      cbn [tick trace] in Htr.
    + unfold bind, call, emit, ret in H. cbn [tick trace] in H.
      destruct (store_evaluations W (tick s1) evs); inversion H; subst; clear H;
        cbn [trace]; rewrite Htr, <- ?app_assoc; cbn [app];
        eexists; (split; [reflexivity|]); cbn [attempts]; rewrite ?attempts_app; simpl; lia.
    + inversion H; subst. rewrite Htr, <- app_assoc. eexists. split; [reflexivity|].
      simpl. exact Hc.
  - intros i total row evaluations s0 index_name Hget Hno.
    exact (evaluate_item_without_index W rag i total row evaluations index_name s0
             Hget Hno).
Qed.

Lemma evaluation_model_calls_bounded_witness :
  exists tr,
    trace (snd (Main.evaluate_sample mixed_run Rag.default_rag
                  (Scenario.number_rows 0 mixed_rows) Scenario.start)) = tr
    /\ (attempts tr <= 6)%nat.
Proof.
  destruct (evaluation_model_calls_bounded mixed_run Rag.default_rag
              (Scenario.number_rows 0 mixed_rows) Scenario.start _ _
              (surjective_pairing _)) as ((tr & Htr & Hc) & _).
  exists tr. split; [exact Htr | exact Hc].
Defined.

(** ** evaluate_rag: completion *)

(** X18.  With a readable ground-truth file, a sample that can be
    drawn, a registry that answers every lookup and a store that
    accepts the rows, [evaluate_rag] returns a list of records: no
    failure of the search, of the answering model, of the judge or of
    the parsing of its reply can make the run raise or return [None]. *)
Theorem evaluation_run_completes
  (W : World) (rag : Rag.RAGSystem) (sample_size : Z) (s : State)
  (ground_truth : list gt_row) (sample : list (nat * gt_row)) :
  read_csv W (tick s) Main.gt_path = Ret ground_truth ->
  Main.draw_sample W ground_truth sample_size = Ret sample ->
  (forall t video_id, exists index_name,
      db_get_index W t video_id Main.eval_embedding_model = Ret index_name) ->
  (forall t rows, store_evaluations W t rows = Ret tt) ->
  exists records s',
    Main.evaluate_rag W rag sample_size s = (Ret (Some records), s').
Proof.
  intros Hread Hdraw Hdb Hstore.
  unfold Main.evaluate_rag, Main.load_ground_truth.
  erewrite bind_Ret
    by (apply try_Ret; unfold bind, call, ret; rewrite Hread; reflexivity).
  cbv beta iota.
  erewrite bind_Ret by (unfold lift; rewrite Hdraw; reflexivity).
  unfold Main.evaluate_sample.
  erewrite bind_Ret by reflexivity. cbv beta.
  match goal with |- context [bind (Main.evaluate_loop _ _ _ _ _ _) _ ?s0] =>
    destruct (evaluate_loop_completes W rag (List.length sample) sample Hdb 0%nat [] s0)
      as (records & s1 & Hloop) end.
  erewrite bind_Ret by exact Hloop. cbv beta.
  erewrite bind_Ret by (unfold call; rewrite Hstore; reflexivity).
  do 2 eexists. reflexivity.
Qed.

Lemma evaluation_run_completes_witness :
  exists records,
    fst (Main.evaluate_rag Scenario.failed_query_run Rag.default_rag 200 Scenario.start)
      = Ret (Some records).
Proof.
  destruct (evaluation_run_completes Scenario.failed_query_run Rag.default_rag 200
              Scenario.start Scenario.bee_rows [(0%nat, ("abc", Scenario.bee_question))])
    as (records & s' & Hrun).
  - reflexivity.
  - reflexivity.
  - intros t video_id. eexists. reflexivity.
  - intros t rows. reflexivity.
  - exists records. now rewrite Hrun.
Defined.

(** ** generate_questions *)

(** X19.  [generate_questions] never raises and makes exactly one model
    call, to [phi3.5].  When the model replied and the reply parsed as
    JSON, the result is the parsed reply, of whatever JSON type, and no
    error is logged.  When the call or the parse raised, the error is
    logged and the result is [None].  A result other than [None] is
    therefore always the parsed reply of the model; a result of [None]
    is either a logged failure or a reply that parsed to JSON [null]. *)
Theorem generate_questions_result (W : World) (transcript : string) (s : State) :
  let reply := ollama_chat W (tick s) "phi3.5" (Main.questions_prompt transcript) in
  let failure e := Log ERROR ("Error generating questions: " ++ str_exn e) in
  exists result tr,
    Main.generate_questions W transcript s
      = (Ret result, mkState (S (tick s)) (trace s ++ tr))
    /\ attempts tr = 1%nat
    /\ hd_error tr = Some (Chat "phi3.5" (Main.questions_prompt transcript))
    /\ (forall text parsed,
          reply = Ret text -> json_loads W text = Ret parsed ->
          result = parsed /\ forall msg, ~ In (Log ERROR msg) tr)
    /\ (forall e, reply = Raise e -> result = JNull /\ In (failure e) tr)
    /\ (forall text e,
          reply = Ret text -> json_loads W text = Raise e ->
          result = JNull /\ In (failure e) tr)
    /\ (result <> JNull ->
        exists text, reply = Ret text /\ json_loads W text = Ret result)
    /\ (result = JNull ->
        (exists e, In (failure e) tr)
        \/ exists text, reply = Ret text /\ json_loads W text = Ret JNull).
Proof.
  intros reply failure. subst reply failure. cbv beta.
  unfold Main.generate_questions, bind, try_except, call, emit, ret, lift. cbv zeta.
  change Main.judge_model with "phi3.5".
  destruct (ollama_chat W (tick s) "phi3.5" (Main.questions_prompt transcript))
    as [text|e] eqn:Hc; cbn [tick trace].
  - destruct (json_loads W text) as [parsed|e] eqn:Hp; cbn [tick trace];
      rewrite <- ?app_assoc; cbn [app]; do 2 eexists;
      (split; [reflexivity|]); (split; [reflexivity|]); (split; [reflexivity|]).
    + split; [|split; [|split; [|split]]].
      * intros t p Ht Hpt. inversion Ht; subst t. rewrite Hp in Hpt.
        inversion Hpt; subst p. split; [reflexivity|].
        intros msg [Hin | [Hin | []]]; discriminate Hin.
      * intros e He. discriminate He.
      * intros t e Ht Hpt. inversion Ht; subst t. rewrite Hp in Hpt. discriminate Hpt.
      * intros _. exists text. auto.
      * intros ->. right. exists text. auto.
    + split; [|split; [|split; [|split]]].
      * intros t p Ht Hpt. inversion Ht; subst t. rewrite Hp in Hpt. discriminate Hpt.
      * intros e' He. discriminate He.
      * intros t e' Ht Hpt. inversion Ht; subst t. rewrite Hp in Hpt.
        inversion Hpt; subst e'. split; [reflexivity | simpl; tauto].
      * intros Hne. now contradiction Hne.
      * intros _. left. exists e. simpl. tauto.
  - rewrite <- ?app_assoc; cbn [app]. do 2 eexists.
    split; [reflexivity|]. split; [reflexivity|]. split; [reflexivity|].
    split; [|split; [|split; [|split]]].
    + intros t p Ht. discriminate Ht.
    + intros e' He. inversion He; subst e'. split; [reflexivity | simpl; tauto].
    + intros t e' Ht. discriminate Ht.
    + intros Hne. now contradiction Hne.
    + intros _. left. exists e. simpl. tauto.
Qed.
